(** * charger-sim: the charging-session simulator of [src/App.tsx] and [src/api.ts]

    A shallow embedding of the telemetry generator, the energy integration,
    the three API client calls and the React component's event handlers,
    followed by the properties of the specification that were checked
    against them.

    Conventions of the embedding.
    - A JavaScript [number] is idealised as an exact rational ([Q]); sums,
      products, [Math.min] and [Math.max] are the rational ones.  The one
      operation of the program that can leave the finite numbers on finite
      operands is the division [powerW / voltageV]; its result has the type
      [jsnum], which adds [Infinity], [-Infinity] and [NaN].
    - The rounding of IEEE doubles is not part of that idealisation.  The
      module [Double] runs the generator on binary64 numbers, for the
      concrete inputs at which rounding decides a statement; where a value
      of the program touches a bound, the bound stated of the rational
      model leaves room for the rounding.
    - [Math.random()] is an input: the four calls made by one run of
      [generateNextState] are the four fields of [draws], in call order.
    - Wall-clock time is an input in milliseconds ([Z]).
    - React state updates queued by a handler are applied when the handler
      (or the continuation of an [await]) returns, an updater function runs
      once per queued update, and every handler run together with the render
      that follows it is one atomic step of the host's event queue.
    - In the event loop a settled API call is how its promise settled
      ([Api.outcome]); the module [Fetch] gives how each client function
      settles from what [fetch] returned. *)

From Stdlib Require Import QArith Qminmax Qround Lqa ZArith List String Ascii Bool Lia.
From Stdlib Require DecimalString DecimalNat DecimalFacts Floats.
Import ListNotations.
Open Scope Q_scope.

(** ** Numbers *)

Inductive jsnum : Type :=
| Fin (q : Q)
| PosInf
| NegInf
| NaN.

(** [a / b] on finite operands, with JavaScript's results for a zero
    divisor. *)
Definition js_div (a b : Q) : jsnum :=
  if Qeq_bool b 0 then
    match a ?= 0 with
    | Gt => PosInf
    | Lt => NegInf
    | Eq => NaN
    end
  else Fin (a / b).


(** [parseFloat(x.toFixed(2))]: the nearest multiple of 1/100, a tie going
    to the one of larger magnitude. *)
Definition toFixed2 (x : Q) : Q :=
  if Qle_bool 0 x
  then inject_Z (Qfloor (x * 100 + (1 # 2))) / 100
  else - (inject_Z (Qfloor ((- x) * 100 + (1 # 2))) / 100).

Definition toFixed2_js (x : jsnum) : jsnum :=
  match x with
  | Fin q => Fin (toFixed2 q)
  | other => other
  end.

(** ** Constants and the charger state ([App.tsx], lines 6-20) *)

(** The string literals ['idle'], ['starting'], ['running'], ['stopping'] and
    ['error'] of the union type; capitalised, since [error] is also the name
    of a state variable of the component. *)
Inductive SessionStatus : Type := Idle | Starting | Running | Stopping | Error.

Record ChargerState : Type := mkChargerState {
  soc : Q;
  powerW : Q;
  voltageV : Q;
  currentA : jsnum;
  tempC : Q
}.

Definition INITIAL_SOC : Q := 20.
Definition TARGET_SOC : Q := 90.
Definition INTERVAL_SECONDS : Q := 1.

(** The object literal passed to [useState] and written back by
    [stopSession]. *)
Definition initialChargerState : ChargerState :=
  {| soc := INITIAL_SOC; powerW := 0; voltageV := 400; currentA := Fin 0; tempC := 20 |}.

(** ** The telemetry generator ([generateNextState], lines 22-43) *)

(** The results of the four [Math.random()] calls of one run, in the order
    in which the function makes them. *)
Record draws : Type := mkDraws {
  r_soc : Q;
  r_voltage : Q;
  r_power : Q;
  r_temp : Q
}.

Definition unit_draw (r : Q) : Prop := 0 <= r /\ r < 1.

Definition valid_draws (d : draws) : Prop :=
  unit_draw (r_soc d) /\ unit_draw (r_voltage d) /\
  unit_draw (r_power d) /\ unit_draw (r_temp d).

Definition generateNextState (prev : ChargerState) (d : draws) : ChargerState :=
  let soc' := Qmin TARGET_SOC (soc prev + 1 + r_soc d * 1) in
  let voltageV' := 380 + r_voltage d * 40 in
  let socPercent := soc' / 100 in
  let socFactor := 1 - Qmax 0 (socPercent - 0.6) * 1.5 in
  let maxPower := 50000 in
  let powerBase := maxPower * Qmax 0.2 socFactor in
  let powerW' := powerBase * (0.9 + r_power d * 0.2) in
  let currentA' := js_div powerW' voltageV' in
  let tempC' := tempC prev + r_temp d * 0.5 in
  {| soc := soc'; powerW := powerW'; voltageV := voltageV';
     currentA := currentA'; tempC := tempC' |}.

(** A sequence of ticks of the generator alone. *)
Fixpoint generateMany (s : ChargerState) (ds : list draws) : ChargerState :=
  match ds with
  | [] => s
  | d :: ds' => generateMany (generateNextState s d) ds'
  end.

(** ** Energy integration (the updater body of [sendUpdate], lines 166-170) *)

Section Interval.
Variable intervalSeconds : Q.

Definition energyIncrementFor (powerW : Q) : Q :=
  let powerKW := powerW / 1000 in
  let timeHours := intervalSeconds / 3600 in
  powerKW * timeHours.

Definition integrateFor (energyDispensed powerW : Q) : Q :=
  energyDispensed + energyIncrementFor powerW.
End Interval.

Definition energyIncrement : Q -> Q := energyIncrementFor INTERVAL_SECONDS.
Definition integrate : Q -> Q -> Q := integrateFor INTERVAL_SECONDS.

(** The running accumulator over a sequence of power samples. *)
Definition integrateMany (intervalSeconds energyDispensed : Q) (samples : list Q) : Q :=
  fold_left (integrateFor intervalSeconds) samples energyDispensed.

(** ** The API client ([api.ts]) *)

Module Api.

Record ChargeUpdatePayload : Type := mkPayload {
  sample_time_increment : Q;
  soc : Q;
  temp_c : Q;
  avg_power_w : Q;
  avg_current_a : jsnum;
  avg_voltage_v : Q
}.

(** The path below [API_BASE_URL] to which a request is posted. *)
Inductive endpoint : Type :=
| start_charge
| charge_update (transactionId : string)
| charge_end (transactionId : string).

(** The object given to [JSON.stringify]. *)
Inductive json : Type :=
| StartChargeBody (started_at : Z) (soc_start : Q)
| UpdateBody (payload : ChargeUpdatePayload).

(** One [fetch] with method POST; [body] is [None] when the options
    object has no [body] field. *)
Record request : Type := mkRequest {
  url : endpoint;
  body : option json
}.

Definition startCharge (startedAt : Z) (socStart : Q) : request :=
  {| url := start_charge; body := Some (StartChargeBody startedAt socStart) |}.

Definition sendChargeUpdate (transactionId : string) (payload : ChargeUpdatePayload) : request :=
  {| url := charge_update transactionId; body := Some (UpdateBody payload) |}.

(** [endCharge] declares the single parameter [transactionId] and posts
    without a body. *)
Definition endCharge (transactionId : string) : request :=
  {| url := charge_end transactionId; body := None |}.

(** How the promise returned by one of the three functions settles: it
    resolves (for [startCharge] with the [transaction_id] of the parsed
    response, which the other two do not read), or it rejects with a
    thrown value whose [message] may be undefined. *)
Inductive outcome : Type :=
| Resolved (transaction_id : string)
| Rejected (message : option string).

End Api.

(** ** The component ([App], lines 101-249) *)

(** A [Date] object: its time value and its identity as an object, which is
    what a dependency array compares. *)
Record Date : Type := mkDate {
  getTime : Z;
  objectId : nat
}.

(** The seven [useState] variables. *)
Record Hooks : Type := mkHooks {
  status : SessionStatus;
  error : option string;
  transactionId : option string;
  chargerState : ChargerState;
  startTime : option Date;
  elapsedSeconds : Z;
  energyDispensed : Q
}.

(** The callbacks given to [window.setInterval], with what each closure
    captured. *)
Inductive intervalCallback : Type :=
| CallSendUpdate (transaction_id : string)   (* line 195 *)
| CallUpdateElapsed (startTime : Date).      (* line 127 *)

(** What runs when an awaited API call settles. *)
Inductive continuation : Type :=
| AfterStartCharge (sessionStartTime : Date)  (* startSession from line 155, or its catch *)
| AfterSendChargeUpdate                       (* the .catch handler of line 182 *)
| AfterEndCharge.                             (* stopSession from line 230 *)

(** The component instance together with the part of the browser it
    talks to. *)
Record World : Type := mkWorld {
  hooks : Hooks;
  intervalRef : option nat;
  timeIntervalRef : option nat;
  intervals : list (nat * intervalCallback);   (* the active window intervals *)
  nextIntervalId : nat;
  pending : list (nat * continuation);         (* API calls in flight *)
  nextCallId : nat;
  nextObjectId : nat;
  network : list Api.request;                  (* requests sent, oldest first *)
  console : list (option string)               (* console.error, oldest first *)
}.

Definition initialHooks : Hooks :=
  {| status := Idle; error := None; transactionId := None;
     chargerState := initialChargerState; startTime := None;
     elapsedSeconds := 0%Z; energyDispensed := 0 |}.

Definition initialWorld : World :=
  {| hooks := initialHooks; intervalRef := None; timeIntervalRef := None;
     intervals := []; nextIntervalId := 0%nat; pending := []; nextCallId := 0%nat;
     nextObjectId := 0%nat; network := []; console := [] |}.

(** *** State setters and browser primitives *)

Definition setStatus (v : SessionStatus) (h : Hooks) : Hooks :=
  mkHooks v (error h) (transactionId h) (chargerState h) (startTime h)
          (elapsedSeconds h) (energyDispensed h).
Definition setError (v : option string) (h : Hooks) : Hooks :=
  mkHooks (status h) v (transactionId h) (chargerState h) (startTime h)
          (elapsedSeconds h) (energyDispensed h).
Definition setTransactionId (v : option string) (h : Hooks) : Hooks :=
  mkHooks (status h) (error h) v (chargerState h) (startTime h)
          (elapsedSeconds h) (energyDispensed h).
Definition setChargerState (v : ChargerState) (h : Hooks) : Hooks :=
  mkHooks (status h) (error h) (transactionId h) v (startTime h)
          (elapsedSeconds h) (energyDispensed h).
Definition setStartTime (v : option Date) (h : Hooks) : Hooks :=
  mkHooks (status h) (error h) (transactionId h) (chargerState h) v
          (elapsedSeconds h) (energyDispensed h).
Definition setElapsedSeconds (v : Z) (h : Hooks) : Hooks :=
  mkHooks (status h) (error h) (transactionId h) (chargerState h) (startTime h)
          v (energyDispensed h).
Definition setEnergyDispensed (v : Q) (h : Hooks) : Hooks :=
  mkHooks (status h) (error h) (transactionId h) (chargerState h) (startTime h)
          (elapsedSeconds h) v.

Definition withHooks (f : Hooks -> Hooks) (w : World) : World :=
  mkWorld (f (hooks w)) (intervalRef w) (timeIntervalRef w) (intervals w)
          (nextIntervalId w) (pending w) (nextCallId w) (nextObjectId w)
          (network w) (console w).

Definition setIntervalRef (v : option nat) (w : World) : World :=
  mkWorld (hooks w) v (timeIntervalRef w) (intervals w)
          (nextIntervalId w) (pending w) (nextCallId w) (nextObjectId w)
          (network w) (console w).

Definition setTimeIntervalRef (v : option nat) (w : World) : World :=
  mkWorld (hooks w) (intervalRef w) v (intervals w)
          (nextIntervalId w) (pending w) (nextCallId w) (nextObjectId w)
          (network w) (console w).

Definition dropKey {A : Type} (k : nat) (l : list (nat * A)) : list (nat * A) :=
  filter (fun e => negb (Nat.eqb (fst e) k)) l.

Fixpoint findKey {A : Type} (k : nat) (l : list (nat * A)) : option A :=
  match l with
  | [] => None
  | (k', a) :: l' => if Nat.eqb k' k then Some a else findKey k l'
  end.

(** [window.setInterval(cb, ms)]: registers the callback and returns its
    handle (second component: the world with the interval registered). *)
Definition setInterval (cb : intervalCallback) (w : World) : nat * World :=
  (nextIntervalId w,
   mkWorld (hooks w) (intervalRef w) (timeIntervalRef w)
           ((nextIntervalId w, cb) :: intervals w)
           (S (nextIntervalId w)) (pending w) (nextCallId w) (nextObjectId w)
           (network w) (console w)).

(** [window.clearInterval(id)]; clearing an unknown handle does nothing. *)
Definition clearInterval (id : nat) (w : World) : World :=
  mkWorld (hooks w) (intervalRef w) (timeIntervalRef w)
          (dropKey id (intervals w))
          (nextIntervalId w) (pending w) (nextCallId w) (nextObjectId w)
          (network w) (console w).

(** Calling one of the API functions: the request goes out now, and [k]
    runs when the returned promise settles. *)
Definition callApi (r : Api.request) (k : continuation) (w : World) : World :=
  mkWorld (hooks w) (intervalRef w) (timeIntervalRef w) (intervals w)
          (nextIntervalId w)
          ((nextCallId w, k) :: pending w) (S (nextCallId w)) (nextObjectId w)
          (network w ++ [r]) (console w).

Definition consoleError (m : option string) (w : World) : World :=
  mkWorld (hooks w) (intervalRef w) (timeIntervalRef w) (intervals w)
          (nextIntervalId w) (pending w) (nextCallId w) (nextObjectId w)
          (network w) (console w ++ [m]).

(** [new Date()] at wall-clock time [now]. *)
Definition newDate (now : Z) (w : World) : Date * World :=
  ({| getTime := now; objectId := nextObjectId w |},
   mkWorld (hooks w) (intervalRef w) (timeIntervalRef w) (intervals w)
           (nextIntervalId w) (pending w) (nextCallId w) (S (nextObjectId w))
           (network w) (console w)).

(** Truthiness of a string, and of a string-or-null. *)
Definition truthy (s : string) : bool := negb (String.eqb s EmptyString).

Definition truthyId (t : option string) : bool :=
  match t with
  | Some s => truthy s
  | None => false
  end.

(** *** The handlers *)

(** The payload literal built at lines 172-179 and again at 221-228. *)
Definition toPayload (c : ChargerState) : Api.ChargeUpdatePayload :=
  {| Api.sample_time_increment := INTERVAL_SECONDS;
     Api.soc := toFixed2 (soc c);
     Api.temp_c := toFixed2 (tempC c);
     Api.avg_power_w := toFixed2 (powerW c);
     Api.avg_current_a := toFixed2_js (currentA c);
     Api.avg_voltage_v := toFixed2 (voltageV c) |}.

(** [sendUpdate] (lines 162-191), a closure over [transaction_id]: the
    updater given to [setChargerState] generates the next state, adds the
    energy increment and sends the payload. *)
Definition sendUpdate (transaction_id : string) (d : draws) (w : World) : World :=
  let prev := chargerState (hooks w) in
  let next := generateNextState prev d in
  let energyInc := energyIncrement (powerW next) in
  let w1 := withHooks (fun h => setEnergyDispensed (energyDispensed h + energyInc) h) w in
  let payload := toPayload next in
  let w2 := if truthy transaction_id
            then callApi (Api.sendChargeUpdate transaction_id payload) AfterSendChargeUpdate w1
            else w1 in
  withHooks (setChargerState next) w2.

(** [startSession] up to its [await] (lines 147-154). *)
Definition startSession (now : Z) (w : World) : World :=
  let w1 := withHooks (fun h => setStatus Starting (setError None h)) w in
  let (sessionStartTime, w2) := newDate now w1 in
  let startedAt := getTime sessionStartTime in
  callApi (Api.startCharge startedAt (toFixed2 INITIAL_SOC))
          (AfterStartCharge sessionStartTime) w2.

(** [startSession] after its [await]: lines 155-197 when the call
    resolved, the [catch] block (lines 198-202) when it rejected. *)
Definition startSessionResume (sessionStartTime : Date) (r : Api.outcome)
    (d : draws) (w : World) : World :=
  match r with
  | Api.Resolved transaction_id =>
      let w1 := withHooks (fun h =>
                  setStatus Running
                    (setEnergyDispensed 0
                      (setElapsedSeconds 0%Z
                        (setStartTime (Some sessionStartTime)
                          (setTransactionId (Some transaction_id) h))))) w in
      let w2 := sendUpdate transaction_id d w1 in
      let (id, w3) := setInterval (CallSendUpdate transaction_id) w2 in
      setIntervalRef (Some id) w3
  | Api.Rejected message =>
      let w1 := consoleError message w in
      let shown := match message with
                   | Some m => m
                   | None => "Failed to start session"%string
                   end in
      withHooks (fun h => setStatus Error (setError (Some shown) h)) w1
  end.

(** The [.catch] handler attached to [sendChargeUpdate] (lines 182-186). *)
Definition sendUpdateSettled (r : Api.outcome) (w : World) : World :=
  match r with
  | Api.Resolved _ => w
  | Api.Rejected message =>
      let w1 := consoleError message w in
      withHooks (fun h => setStatus Error (setError message h)) w1
  end.

(** The reset at the end of [stopSession] (lines 236-248). *)
Definition resetState (w : World) : World :=
  withHooks (fun h =>
    setChargerState initialChargerState
      (setEnergyDispensed 0
        (setElapsedSeconds 0%Z
          (setStartTime None
            (setTransactionId None
              (setStatus Idle h)))))) w.

(** [stopSession] up to its [await] (lines 205-229); without a truthy
    [transactionId] there is no call and the reset follows at once. *)
Definition stopSession (w : World) : World :=
  let w1 := withHooks (setStatus Stopping) w in
  let w2 := match intervalRef w1 with
            | Some id => setIntervalRef None (clearInterval id w1)
            | None => w1
            end in
  let w3 := match timeIntervalRef w2 with
            | Some id => setTimeIntervalRef None (clearInterval id w2)
            | None => w2
            end in
  match transactionId (hooks w) with
  | Some tid =>
      if truthy tid then
        (* [finalPayload] is handed to [endCharge] as a second argument,
           for which [endCharge] has no parameter. *)
        let finalPayload := toPayload (chargerState (hooks w)) in
        let call := (fun (_ : Api.ChargeUpdatePayload) => Api.endCharge tid) finalPayload in
        callApi call AfterEndCharge w3
      else resetState w3
  | None => resetState w3
  end.

(** [stopSession] after its [await] (lines 230-248). *)
Definition stopSessionResume (r : Api.outcome) (w : World) : World :=
  let w1 := match r with
            | Api.Resolved _ => w
            | Api.Rejected message => consoleError message w
            end in
  resetState w1.

(** *** Rendering: the elapsed-time effect and the two buttons *)

Definition status_eqb (a b : SessionStatus) : bool :=
  match a, b with
  | Idle, Idle | Starting, Starting | Running, Running
  | Stopping, Stopping | Error, Error => true
  | _, _ => false
  end.

(** [Object.is] on the two dependencies [status] and [startTime]. *)
Definition sameDeps (a b : Hooks) : bool :=
  status_eqb (status a) (status b) &&
  match startTime a, startTime b with
  | None, None => true
  | Some x, Some y => Nat.eqb (objectId x) (objectId y)
  | _, _ => false
  end.

(** [updateElapsed] (lines 122-125). *)
Definition updateElapsed (startTime : Date) (now : Z) (w : World) : World :=
  let elapsed := ((now - getTime startTime) / 1000)%Z in
  withHooks (setElapsedSeconds elapsed) w.

(** The effect of lines 120-134 after a render in which the hooks went
    from [prev] to those of [w]: when a dependency changed, the previous
    run's cleanup (if that run returned one) and then the body. *)
Definition elapsedEffect (prev : Hooks) (now : Z) (w : World) : World :=
  if sameDeps prev (hooks w) then w
  else
    let hadCleanup := match status prev, startTime prev with
                      | Running, Some _ => true
                      | _, _ => false
                      end in
    let w1 := if hadCleanup
              then match timeIntervalRef w with
                   | Some id => clearInterval id w
                   | None => w
                   end
              else w in
    match status (hooks w1), startTime (hooks w1) with
    | Running, Some st =>
        let w2 := updateElapsed st now w1 in
        let (id, w3) := setInterval (CallUpdateElapsed st) w2 in
        setTimeIntervalRef (Some id) w3
    | _, _ => w1
    end.

Definition isRunning (h : Hooks) : bool := status_eqb (status h) Running.

(** The START CHARGING button is rendered when [!isRunning] and is
    disabled when [status === 'starting'] (lines 351-359). *)
Definition startButtonClickable (h : Hooks) : bool :=
  negb (isRunning h) && negb (status_eqb (status h) Starting).

(** The END SESSION button is disabled when [!isRunning] (line 343). *)
Definition stopButtonClickable (h : Hooks) : bool := isRunning h.

(** *** The event loop *)

Inductive event : Type :=
| ClickStart (now : Z)
| ClickStop (now : Z)
| IntervalFires (id : nat) (now : Z) (d : draws)
| CallSettles (id : nat) (r : Api.outcome) (now : Z) (d : draws).

(** The handler of an event, without the render that follows it.  A click
    on a button that is disabled or not rendered, the handle of a cleared
    interval and the id of a call that is not in flight run nothing. *)
Definition handle (e : event) (w : World) : World :=
  match e with
  | ClickStart now =>
      if startButtonClickable (hooks w) then startSession now w else w
  | ClickStop _ =>
      if stopButtonClickable (hooks w) then stopSession w else w
  | IntervalFires id now d =>
      match findKey id (intervals w) with
      | Some (CallSendUpdate transaction_id) => sendUpdate transaction_id d w
      | Some (CallUpdateElapsed st) => updateElapsed st now w
      | None => w
      end
  | CallSettles id r _ d =>
      match findKey id (pending w) with
      | Some k =>
          let w1 := mkWorld (hooks w) (intervalRef w) (timeIntervalRef w)
                            (intervals w) (nextIntervalId w)
                            (dropKey id (pending w)) (nextCallId w)
                            (nextObjectId w) (network w) (console w) in
          match k with
          | AfterStartCharge sessionStartTime => startSessionResume sessionStartTime r d w1
          | AfterSendChargeUpdate => sendUpdateSettled r w1
          | AfterEndCharge => stopSessionResume r w1
          end
      | None => w
      end
  end.

Definition eventTime (e : event) : Z :=
  match e with
  | ClickStart now | ClickStop now | IntervalFires _ now _ | CallSettles _ _ now _ => now
  end.

Definition step (w : World) (e : event) : World :=
  elapsedEffect (hooks w) (eventTime e) (handle e w).

Definition run (w : World) (es : list event) : World := fold_left step es w.

(** Whether an event is the settling of call [id]. *)
Definition settlesCall (id : nat) (e : event) : bool :=
  match e with
  | CallSettles id' _ _ _ => Nat.eqb id' id
  | _ => false
  end.

(** Call [id] is in flight with continuation [k]. *)
Definition inFlight (id : nat) (k : continuation) (w : World) : Prop :=
  findKey id (pending w) = Some k /\ (id < nextCallId w)%nat.

(** From [w] to [w'] the calls in flight are the same, or one call was
    added under the next free id. *)
Definition callsGrow (w w' : World) : Prop :=
  (pending w' = pending w /\ nextCallId w' = nextCallId w) \/
  (exists k, pending w' = (nextCallId w, k) :: pending w /\
             nextCallId w' = S (nextCallId w)).

(** ** Concrete runs used below *)

Definition noDraw : draws := mkDraws 0 0 0 0.
Definition halfDraw : draws := mkDraws (1 # 2) (1 # 2) (1 # 2) (1 # 2).

(** A session started at time 1000 whose start call resolved with the
    identifier tx1; its first update (call 1) is still in flight. *)
Definition runningWorld : World :=
  run initialWorld [ClickStart 1000; CallSettles 0 (Api.Resolved "tx1") 1500 halfDraw].

(** The same with the empty string as identifier. *)
Definition runningNoIdWorld : World :=
  run initialWorld [ClickStart 1000; CallSettles 0 (Api.Resolved EmptyString) 1500 halfDraw].

(** The first update of [runningWorld] failed. *)
Definition updateFailedWorld : World :=
  step runningWorld (CallSettles 1 (Api.Rejected (Some "Failed to send charge update: 500"%string)) 1600 noDraw).

(** [runningWorld] stopped, the end call (call 2) acknowledged. *)
Definition stoppedWorld : World :=
  run runningWorld [ClickStop 3000; CallSettles 2 (Api.Resolved EmptyString) 3100 noDraw].

(** A start call that failed. *)
Definition startFailedWorld : World :=
  run initialWorld [ClickStart 1000; CallSettles 0 (Api.Rejected (Some "Failed to start charge: 503"%string)) 1100 noDraw].

(** The states generated by a sequence of ticks, oldest first. *)
Fixpoint generateTrace (s : ChargerState) (ds : list draws) : list ChargerState :=
  match ds with
  | [] => []
  | d :: ds' => generateNextState s d :: generateTrace (generateNextState s d) ds'
  end.

(** Successive firings of interval [id], each with its time and draws. *)
Definition tickEvents (id : nat) (ticks : list (Z * draws)) : list event :=
  map (fun t => IntervalFires id (fst t) (snd t)) ticks.

(** The one kind of request that an event of each kind may send. *)
Definition mayRequest (e : event) (r : Api.request) : Prop :=
  match e, Api.url r with
  | ClickStart _, Api.start_charge => True
  | ClickStop _, Api.charge_end _ => True
  | IntervalFires _ _ _, Api.charge_update _ => True
  | CallSettles _ _ _ _, Api.charge_update _ => True
  | _, _ => False
  end.

(** Every registered elapsed-time interval belongs to a running session and
    is the one whose handle [timeIntervalRef] holds. *)
Definition elapsedTimersOwned (w : World) : Prop :=
  forall id st,
    In (id, CallUpdateElapsed st) (intervals w) ->
    status (hooks w) = Running /\ timeIntervalRef w = Some id.

(** What holds of the component after any sequence of events. *)
Definition invariant (w : World) : Prop :=
  (status (hooks w) = Running -> startTime (hooks w) <> None) /\
  (status (hooks w) = Idle ->
   transactionId (hooks w) = None /\ startTime (hooks w) = None /\
   elapsedSeconds (hooks w) = 0%Z) /\
  (status (hooks w) = Starting ->
   exists id st, inFlight id (AfterStartCharge st) w) /\
  (status (hooks w) = Stopping ->
   truthyId (transactionId (hooks w)) = true /\
   exists id, inFlight id AfterEndCharge w) /\
  elapsedTimersOwned w.

(** ** Display helpers ([App.tsx], lines 45-99) *)

(** The decimal digits of a natural number, as [Number.prototype.toString]
    prints a non-negative integer. *)
Definition decimal (n : nat) : string :=
  DecimalString.NilZero.string_of_uint (Nat.to_uint n).

(** [String(z)] for an integer [z]. *)
Definition numberToString (z : Z) : string :=
  if (z <? 0)%Z then String "-" (decimal (Z.to_nat (- z))) else decimal (Z.to_nat z).

(** [s.padStart(targetLength, c)] for a one-character pad string. *)
Definition padStart (targetLength : nat) (c : ascii) (s : string) : string :=
  (fix pad (n : nat) : string :=
     match n with
     | O => s
     | S n' => String c (pad n')
     end) (targetLength - String.length s)%nat.

(** [formatTime] (lines 45-49) on a whole number of seconds, which is what
    its one caller passes; [%] is the truncating remainder. *)
Definition formatTime (seconds : Z) : string :=
  let mins := (seconds / 60)%Z in
  let secs := Z.rem seconds 60 in
  (numberToString mins ++ ":" ++ padStart 2 "0" (numberToString secs))%string.

(** [formatTime12Hour] (lines 51-57) as a function of the two readings it
    takes from [new Date()]. *)
Definition formatTime12Hour (getHours getMinutes : Z) : string :=
  let hours := if (Z.rem getHours 12 =? 0)%Z then 12%Z else Z.rem getHours 12 in
  let minutes := padStart 2 "0" (numberToString getMinutes) in
  let ampm := if (12 <=? getHours)%Z then "PM"%string else "AM"%string in
  (numberToString hours ++ ":" ++ minutes ++ " " ++ ampm)%string.

Section Gauge.
(** [Math.PI], which is not a rational number, is a variable. *)
Variable PI : Q.

Definition gaugeRadius : Q := 120.

Definition gaugeCircumference : Q := 2 * PI * gaugeRadius.

Definition normalizedPercentage (percentage : Q) : Q :=
  Qmin 100 (Qmax 0 percentage).

(** The [strokeDashoffset] of the progress circle (line 63). *)
Definition gaugeOffset (percentage : Q) : Q :=
  gaugeCircumference - (normalizedPercentage percentage / 100) * gaugeCircumference.
End Gauge.

(** [Math.round(normalizedPercentage)], the number shown in the gauge. *)
Definition gaugeValue (percentage : Q) : Z :=
  Qfloor (normalizedPercentage percentage + (1 # 2)).

(** Reading back a string of decimal digits. *)
Definition readDecimal (s : string) : option nat :=
  option_map Nat.of_uint (DecimalString.NilZero.uint_of_string s).

(** ** How the API calls settle ([api.ts], lines 19-63) *)

Module Fetch.

(** How reading the body of a response settles. [content] is the text for
    [res.text()] and, for [res.json()], the [transaction_id] of the parsed
    object (as in [Api.outcome], an identifier that is null or missing is
    represented by the empty string, which is falsy like them); when the
    read rejects, [message] is the [message] of the value thrown, which
    need not have one. *)
Inductive bodyRead : Type :=
| BodyRead (content : string)
| BodyFailed (message : option string).

(** How [fetch] settles: it rejects with a value that may or may not have a
    [message], or it resolves with a response. *)
Inductive fetchResult : Type :=
| FetchRejected (message : option string)
| Response (ok : bool) (status : nat) (text : bodyRead) (json : bodyRead).

(** [throw new Error(`<prefix>${res.status} ${text}`)] after
    [await res.text()]. *)
Definition failure (prefix : string) (status : nat) (text : bodyRead) : Api.outcome :=
  match text with
  | BodyRead t => Api.Rejected (Some (prefix ++ decimal status ++ " " ++ t)%string)
  | BodyFailed m => Api.Rejected m
  end.

(** [startCharge] after its [fetch] (lines 29-34). *)
Definition startCharge (f : fetchResult) : Api.outcome :=
  match f with
  | FetchRejected m => Api.Rejected m
  | Response ok status text json =>
      if negb ok then failure "Failed to start charge: " status text
      else match json with
           | BodyRead transaction_id => Api.Resolved transaction_id
           | BodyFailed m => Api.Rejected m
           end
  end.

(** [sendChargeUpdate] after its [fetch] (lines 47-50). *)
Definition sendChargeUpdate (f : fetchResult) : Api.outcome :=
  match f with
  | FetchRejected m => Api.Rejected m
  | Response ok status text _ =>
      if negb ok then failure "Failed to send charge update: " status text
      else Api.Resolved EmptyString
  end.

(** [endCharge] after its [fetch] (lines 59-62). *)
Definition endCharge (f : fetchResult) : Api.outcome :=
  match f with
  | FetchRejected m => Api.Rejected m
  | Response ok status text _ =>
      if negb ok then failure "Failed to end charge: " status text
      else Api.Resolved EmptyString
  end.

(** The API client itself threw nothing: the rejection, if any, is one
    that [fetch] or the reading of a body produced and the client passed
    on. *)
Definition passedOn (f : fetchResult) (message : option string) : Prop :=
  match f with
  | FetchRejected m => m = message
  | Response false _ text _ => text = BodyFailed message
  | Response true _ _ json => json = BodyFailed message
  end.

End Fetch.

(** ** Unmounting (the cleanups of lines 128-132 and 137-144) *)

Definition unmount (w : World) : World :=
  let w1 := match status (hooks w), startTime (hooks w) with
            | Running, Some _ =>
                match timeIntervalRef w with
                | Some id => clearInterval id w
                | None => w
                end
            | _, _ => w
            end in
  let w2 := match intervalRef w1 with
            | Some id => clearInterval id w1
            | None => w1
            end in
  match timeIntervalRef w2 with
  | Some id => clearInterval id w2
  | None => w2
  end.

(** ** URLs ([api.ts], lines 3-4, 20, 41 and 54) *)

(** [API_BASE_URL]: the configured value when it is set and not empty,
    otherwise the proxy path in development and the local server in
    production. *)
Definition apiBaseUrl (viteApiBaseUrl : option string) (dev : bool) : string :=
  if truthyId viteApiBaseUrl
  then match viteApiBaseUrl with
       | Some u => u
       | None => EmptyString
       end
  else if dev then "/api"%string else "http://localhost:8000"%string.

(** The template literals that the three functions pass to [fetch]. *)
Definition urlOf (base : string) (e : Api.endpoint) : string :=
  match e with
  | Api.start_charge => (base ++ "/start_charge")%string
  | Api.charge_update transactionId => (base ++ "/" ++ transactionId ++ "/charge_update")%string
  | Api.charge_end transactionId => (base ++ "/" ++ transactionId ++ "/charge_end")%string
  end.

(** ** The generator on IEEE doubles

    The same function with the arithmetic the program actually runs:
    binary64 numbers, every operation rounded to nearest (ties to even).
    It is used to evaluate the code at concrete inputs where rounding
    matters; [exact] gives the rational number a finite double stands for. *)

Module Double.
Import PrimFloat.
#[local] Set Warnings "-inexact-float".
#[local] Open Scope float_scope.

Record ChargerState : Type := mkChargerState {
  soc : float;
  powerW : float;
  voltageV : float;
  currentA : float;
  tempC : float
}.

Record draws : Type := mkDraws {
  r_soc : float;
  r_voltage : float;
  r_power : float;
  r_temp : float
}.

(** [Math.min] and [Math.max]: NaN if an argument is NaN, and of the two
    zeros the negative one is the smaller. *)
Definition Math_min (a b : float) : float :=
  if is_nan a || is_nan b then nan
  else if ltb a b then a
  else if ltb b a then b
  else if get_sign a then a else b.

Definition Math_max (a b : float) : float :=
  if is_nan a || is_nan b then nan
  else if ltb a b then b
  else if ltb b a then a
  else if get_sign a then b else a.

Definition INITIAL_SOC : float := 20.
Definition TARGET_SOC : float := 90.

Definition initialChargerState : ChargerState :=
  {| soc := INITIAL_SOC; powerW := 0; voltageV := 400; currentA := 0; tempC := 20 |}.

Definition generateNextState (prev : ChargerState) (d : draws) : ChargerState :=
  let soc' := Math_min TARGET_SOC (soc prev + 1 + r_soc d * 1) in
  let voltageV' := 380 + r_voltage d * 40 in
  let socPercent := soc' / 100 in
  let socFactor := 1 - Math_max 0 (socPercent - 0.6) * 1.5 in
  let maxPower := 50000 in
  let powerBase := maxPower * Math_max 0.2 socFactor in
  let powerW' := powerBase * (0.9 + r_power d * 0.2) in
  let currentA' := powerW' / voltageV' in
  let tempC' := tempC prev + r_temp d * 0.5 in
  {| soc := soc'; powerW := powerW'; voltageV := voltageV';
     currentA := currentA'; tempC := tempC' |}.

(** The rational value of a finite double. *)
Definition exact (x : float) : option Q :=
  match FloatOps.Prim2SF x with
  | SpecFloat.S754_zero _ => Some 0%Q
  | SpecFloat.S754_finite negative m e =>
      let magnitude :=
        if (0 <=? e)%Z
        then inject_Z (Z.pos m * 2 ^ e)
        else (inject_Z (Z.pos m) / inject_Z (2 ^ (- e)))%Q in
      Some (if negative then (- magnitude)%Q else magnitude)
  | SpecFloat.S754_infinity _ | SpecFloat.S754_nan => None
  end.

(** The largest double below 1, a value [Math.random()] can return. *)
Definition belowOne : float := 1 - 0x1p-53.

Definition edgeDraws : draws := mkDraws belowOne belowOne belowOne belowOne.

End Double.

(** * Properties *)

(** ** The generator *)

Lemma noDraw_valid : valid_draws noDraw.
Proof. unfold valid_draws, unit_draw, noDraw; simpl; repeat split; lra. Qed.

Lemma halfDraw_valid : valid_draws halfDraw.
Proof. unfold valid_draws, unit_draw, halfDraw; simpl; repeat split; lra. Qed.

Lemma soc_next (prev : ChargerState) (d : draws) :
  soc (generateNextState prev d) = Qmin TARGET_SOC (soc prev + 1 + r_soc d * 1).
Proof. reflexivity. Qed.

Lemma soc_next_bounds (prev : ChargerState) (d : draws) :
  soc prev <= 90 -> unit_draw (r_soc d) ->
  soc prev <= soc (generateNextState prev d) /\
  soc (generateNextState prev d) <= 90 /\
  (soc prev == 90 -> soc (generateNextState prev d) == 90).
Proof.
  intros Hle [H0 H1]. rewrite soc_next. unfold TARGET_SOC.
  destruct (Q.min_spec 90 (soc prev + 1 + r_soc d * 1)) as [[Hlt Heq] | [Hge Heq]];
    rewrite Heq; repeat split; intros; lra.
Qed.

Lemma generateMany_app (s : ChargerState) (xs ys : list draws) :
  generateMany s (xs ++ ys) = generateMany (generateMany s xs) ys.
Proof.
  revert s. induction xs as [| x xs IH]; intro s; simpl; [reflexivity | apply IH].
Qed.

Lemma generateMany_soc (ds : list draws) :
  forall s : ChargerState,
    soc s <= 90 -> Forall valid_draws ds ->
    soc s <= soc (generateMany s ds) /\
    soc (generateMany s ds) <= 90 /\
    (soc s == 90 -> soc (generateMany s ds) == 90).
Proof.
  induction ds as [| d ds IH]; intros s Hle Hall; simpl.
  - repeat split; intros; lra.
  - inversion Hall as [| ? ? Hd Hds]; subst.
    destruct Hd as [Hsoc _].
    destruct (soc_next_bounds s d Hle Hsoc) as (Hmono & Hcap & Hstay).
    destruct (IH (generateNextState s d) Hcap Hds) as (Hmono' & Hcap' & Hstay').
    repeat split.
    + lra.
    + exact Hcap'.
    + intro H90. apply Hstay', Hstay, H90.
Qed.

(** C5, as stated, fails on doubles: from a state of charge of 20 and the
    largest draw below 1 the program computes 22, which is 20 plus 2 and not
    20 plus an amount in [1, 2). *)
Lemma double_soc_step_adds_two :
  (exists r, Double.exact (Double.r_soc Double.edgeDraws) = Some r /\ 0 <= r /\ r < 1) /\
  (exists s, Double.exact (Double.soc Double.initialChargerState) = Some s /\ s == 20) /\
  (exists s',
      Double.exact
        (Double.soc (Double.generateNextState Double.initialChargerState Double.edgeDraws))
      = Some s' /\
      s' == 22 /\
      forall amount : Q, 1 <= amount -> amount < 2 -> ~ s' == Qmin 90 (20 + amount)).
Proof.
  split.
  { eexists. split; [vm_compute; reflexivity |].
    split; [unfold Qle | unfold Qlt]; simpl; lia. }
  split; [eexists; split; [vm_compute; reflexivity | reflexivity] |].
  eexists. split; [vm_compute; reflexivity |].
  match goal with
  | |- ?x == 22 /\ _ => assert (E22 : x == 22) by reflexivity
  end.
  split; [exact E22 |].
  intros amount H1 H2 E. rewrite E22 in E.
  destruct (Q.min_spec 90 (20 + amount)) as [[Hlt Hmin] | [Hge Hmin]];
    rewrite Hmin in E; lra.
Qed.

(** C5, amended. From a state of charge in [0, 90] one run of the
    generator adds an amount that lies in [1, 2) up to the rounding of the
    two additions (here: within one part in 10^9) and clamps the sum to 90;
    along any sequence of ticks the state of charge never decreases, never
    exceeds 90, and stays at 90 once it is there. *)
Theorem soc_advances_clamped (prev : ChargerState) (d : draws) (earlier later : list draws) :
  0 <= soc prev -> soc prev <= 90 ->
  valid_draws d -> Forall valid_draws earlier -> Forall valid_draws later ->
  (exists amount : Q,
      1 - (1 # 1000000000) <= amount /\ amount <= 2 + (1 # 1000000000) /\
      soc (generateNextState prev d) == Qmin 90 (soc prev + amount)) /\
  soc (generateMany prev earlier) <= soc (generateMany prev (earlier ++ later)) /\
  soc (generateMany prev (earlier ++ later)) <= 90 /\
  (soc (generateMany prev earlier) == 90 ->
   soc (generateMany prev (earlier ++ later)) == 90).
Proof.
  intros _ Hle Hd Hearlier Hlater. split.
  - exists (1 + r_soc d * 1). destruct Hd as [[H0 H1] _].
    repeat split; try lra.
    rewrite soc_next. unfold TARGET_SOC.
    apply Q.min_compat; [reflexivity | ring].
  - rewrite generateMany_app.
    destruct (generateMany_soc earlier prev Hle Hearlier) as (_ & Hcap & _).
    destruct (generateMany_soc later (generateMany prev earlier) Hcap Hlater)
      as (Hmono & Hcap' & Hstay).
    auto.
Qed.

Lemma soc_advances_clamped_witness :
  (0 <= soc initialChargerState /\ soc initialChargerState <= 90) /\
  (exists amount : Q,
      1 - (1 # 1000000000) <= amount /\ amount <= 2 + (1 # 1000000000) /\
      soc (generateNextState initialChargerState halfDraw)
      == Qmin 90 (soc initialChargerState + amount)) /\
  soc (generateMany initialChargerState [noDraw])
  <= soc (generateMany initialChargerState ([noDraw] ++ [halfDraw; halfDraw])) /\
  soc (generateMany initialChargerState ([noDraw] ++ [halfDraw; halfDraw])) <= 90 /\
  (soc (generateMany initialChargerState [noDraw]) == 90 ->
   soc (generateMany initialChargerState ([noDraw] ++ [halfDraw; halfDraw])) == 90).
Proof.
  assert (H0 : 0 <= soc initialChargerState) by (simpl; unfold INITIAL_SOC; lra).
  assert (H90 : soc initialChargerState <= 90) by (simpl; unfold INITIAL_SOC; lra).
  split; [split; assumption |].
  apply (soc_advances_clamped initialChargerState halfDraw [noDraw] [halfDraw; halfDraw] H0 H90).
  - exact halfDraw_valid.
  - constructor; [exact noDraw_valid | constructor].
  - constructor; [exact halfDraw_valid |].
    constructor; [exact halfDraw_valid | constructor].
Defined.

Lemma voltage_next (prev : ChargerState) (d : draws) :
  voltageV (generateNextState prev d) = 380 + r_voltage d * 40.
Proof. reflexivity. Qed.

Lemma voltage_band (prev : ChargerState) (d : draws) :
  unit_draw (r_voltage d) ->
  380 <= voltageV (generateNextState prev d) /\
  voltageV (generateNextState prev d) < 420.
Proof. intros [H0 H1]. rewrite voltage_next. split; lra. Qed.

Lemma js_div_nonzero (a b : Q) : ~ b == 0 -> js_div a b = Fin (a / b).
Proof.
  intro Hb. unfold js_div.
  destruct (Qeq_bool b 0) eqn:E; [| reflexivity].
  apply Qeq_bool_iff in E. contradiction.
Qed.

Lemma current_next (prev : ChargerState) (d : draws) :
  currentA (generateNextState prev d)
  = js_div (powerW (generateNextState prev d)) (voltageV (generateNextState prev d)).
Proof. reflexivity. Qed.

(** C8. The current of a generated state is the quotient of the power and
    the voltage of that same state; no random draw enters it other than
    through these two. *)
Theorem current_is_power_over_voltage (prev : ChargerState) (d : draws) :
  valid_draws d ->
  currentA (generateNextState prev d)
  = Fin (powerW (generateNextState prev d) / voltageV (generateNextState prev d)).
Proof.
  intros (_ & Hv & _). rewrite current_next. apply js_div_nonzero.
  destruct (voltage_band prev d Hv) as [Hlo _]. intro Hz. rewrite Hz in Hlo. lra.
Qed.

Lemma current_is_power_over_voltage_witness :
  valid_draws halfDraw /\
  currentA (generateNextState initialChargerState halfDraw)
  = Fin (powerW (generateNextState initialChargerState halfDraw)
         / voltageV (generateNextState initialChargerState halfDraw)).
Proof.
  split; [exact halfDraw_valid |].
  exact (current_is_power_over_voltage initialChargerState halfDraw halfDraw_valid).
Defined.

Lemma power_next (prev : ChargerState) (d : draws) :
  powerW (generateNextState prev d)
  = 50000 * Qmax 0.2 (1 - Qmax 0 (soc (generateNextState prev d) / 100 - 0.6) * 1.5)
    * (0.9 + r_power d * 0.2).
Proof. reflexivity. Qed.

(** The taper factor after the floor: between 0.2 and 1. *)
Lemma taper_bounds (x : Q) :
  0.2 <= Qmax 0.2 (1 - Qmax 0 (x - 0.6) * 1.5) /\
  Qmax 0.2 (1 - Qmax 0 (x - 0.6) * 1.5) <= 1.
Proof.
  destruct (Q.max_spec 0 (x - 0.6)) as [[Ha Ea] | [Ha Ea]];
    destruct (Q.max_spec 0.2 (1 - Qmax 0 (x - 0.6) * 1.5)) as [[Hb Eb] | [Hb Eb]];
    rewrite Eb; rewrite ?Ea; rewrite Ea in Hb; split; lra.
Qed.

Lemma power_bounds (prev : ChargerState) (d : draws) :
  unit_draw (r_power d) ->
  9000 <= powerW (generateNextState prev d) /\
  powerW (generateNextState prev d) < 55000.
Proof.
  intros [H0 H1]. rewrite power_next.
  destruct (taper_bounds (soc (generateNextState prev d) / 100)) as [Hlo Hhi].
  set (t := Qmax 0.2 (1 - Qmax 0 (soc (generateNextState prev d) / 100 - 0.6) * 1.5)) in *.
  split; nra.
Qed.

Lemma energyIncrement_eq (p : Q) : energyIncrement p == p * (1 # 3600000).
Proof.
  unfold energyIncrement, energyIncrementFor, INTERVAL_SECONDS, Qdiv.
  change (/ 1000) with (1 # 1000). change (/ 3600) with (1 # 3600). ring.
Qed.

Lemma sendUpdate_chargerState (tid : string) (d : draws) (w : World) :
  chargerState (hooks (sendUpdate tid d w)) = generateNextState (chargerState (hooks w)) d.
Proof. unfold sendUpdate. destruct (truthy tid); reflexivity. Qed.

Lemma sendUpdate_energy (tid : string) (d : draws) (w : World) :
  energyDispensed (hooks (sendUpdate tid d w))
  = integrate (energyDispensed (hooks w))
              (powerW (generateNextState (chargerState (hooks w)) d)).
Proof. unfold sendUpdate. destruct (truthy tid); reflexivity. Qed.

(** C10, as stated, fails on doubles: from the initial state and the
    largest draw below 1 the program computes a power above 55000 W. *)
Lemma double_power_exceeds_55000 :
  (exists r, Double.exact (Double.r_power Double.edgeDraws) = Some r /\ 0 <= r /\ r < 1) /\
  (exists p,
      Double.exact
        (Double.powerW (Double.generateNextState Double.initialChargerState Double.edgeDraws))
      = Some p /\
      55000 < p /\ ~ (9000 <= p /\ p < 55000)).
Proof.
  split.
  { eexists. split; [vm_compute; reflexivity |].
    split; [unfold Qle | unfold Qlt]; simpl; lia. }
  eexists. split; [vm_compute; reflexivity |].
  match goal with
  | |- 55000 < ?x /\ _ => assert (H : 55000 < x) by (unfold Qlt; simpl; lia)
  end.
  split; [exact H |]. intros [_ Hlt]. lra.
Qed.

(** C10, amended. Whatever the previous state, the generated power is at
    least 9000 W and at most 55000 W up to the rounding of the products
    (here: below 55000.000001), so the energy increment of the tick is
    positive and the energy dispensed grows strictly with every tick. *)
Theorem power_positive_energy_increasing
    (prev : ChargerState) (d : draws) (transaction_id : string) (w : World) :
  valid_draws d ->
  (9000 <= powerW (generateNextState prev d) /\
   powerW (generateNextState prev d) <= 55000 + (1 # 1000000)) /\
  0 < energyIncrement (powerW (generateNextState prev d)) /\
  energyDispensed (hooks w) < energyDispensed (hooks (sendUpdate transaction_id d w)).
Proof.
  intros (_ & _ & Hp & _).
  split; [destruct (power_bounds prev d Hp); split; lra |]. split.
  - destruct (power_bounds prev d Hp) as [Hlo _].
    rewrite energyIncrement_eq. lra.
  - rewrite sendUpdate_energy. unfold integrate, integrateFor.
    fold (energyIncrement (powerW (generateNextState (chargerState (hooks w)) d))).
    destruct (power_bounds (chargerState (hooks w)) d Hp) as [Hlo _].
    rewrite energyIncrement_eq. lra.
Qed.

Lemma power_positive_energy_increasing_witness :
  valid_draws halfDraw /\
  (9000 <= powerW (generateNextState initialChargerState halfDraw) /\
   powerW (generateNextState initialChargerState halfDraw) <= 55000 + (1 # 1000000)) /\
  0 < energyIncrement (powerW (generateNextState initialChargerState halfDraw)) /\
  energyDispensed (hooks runningWorld)
  < energyDispensed (hooks (sendUpdate "tx1" halfDraw runningWorld)).
Proof.
  split; [exact halfDraw_valid |].
  exact (power_positive_energy_increasing initialChargerState halfDraw "tx1"
           runningWorld halfDraw_valid).
Defined.

(** ** Energy integration *)

Lemma integrateMany_constant (intervalSeconds p : Q) (n : nat) :
  forall e : Q,
    integrateMany intervalSeconds e (repeat p n)
    == e + inject_Z (Z.of_nat n) * ((p / 1000) * (intervalSeconds / 3600)).
Proof.
  unfold integrateMany.
  induction n as [| n IH]; intro e.
  - simpl. ring.
  - cbn [repeat fold_left]. rewrite IH.
    unfold integrateFor, energyIncrementFor.
    rewrite Nat2Z.inj_succ, <- Z.add_1_r, inject_Z_plus. ring.
Qed.

(** C9. One integration step adds (powerW / 1000) * (intervalSeconds / 3600)
    to the accumulated energy, the tick handler performs exactly this step
    with the generated power, and from zero N steps at constant power P and
    interval I accumulate N * (P / 1000) * (I / 3600). *)
Theorem energy_integration_step
    (energy power intervalSeconds : Q) (n : nat)
    (transaction_id : string) (d : draws) (w : World) :
  integrateFor intervalSeconds energy power
  = energy + (power / 1000) * (intervalSeconds / 3600) /\
  energyDispensed (hooks (sendUpdate transaction_id d w))
  = integrateFor INTERVAL_SECONDS (energyDispensed (hooks w))
      (powerW (generateNextState (chargerState (hooks w)) d)) /\
  integrateMany intervalSeconds 0 (repeat power n)
  == inject_Z (Z.of_nat n) * (power / 1000) * (intervalSeconds / 3600).
Proof.
  split; [reflexivity |]. split; [apply sendUpdate_energy |].
  rewrite integrateMany_constant. ring.
Qed.

(** ** The voltage band and the division *)



(** ** The session machine *)

Lemma status_eqb_refl (a : SessionStatus) : status_eqb a a = true.
Proof. destruct a; reflexivity. Qed.

Lemma sameDeps_refl (h : Hooks) : sameDeps h h = true.
Proof.
  unfold sameDeps. rewrite status_eqb_refl.
  destruct (startTime h); [apply Nat.eqb_refl | reflexivity].
Qed.

(** The effect leaves everything but [elapsedSeconds], the registered
    intervals and [timeIntervalRef] alone. *)
Lemma elapsedEffect_frame (prev : Hooks) (now : Z) (w : World) :
  let w' := elapsedEffect prev now w in
  status (hooks w') = status (hooks w) /\
  error (hooks w') = error (hooks w) /\
  transactionId (hooks w') = transactionId (hooks w) /\
  chargerState (hooks w') = chargerState (hooks w) /\
  startTime (hooks w') = startTime (hooks w) /\
  energyDispensed (hooks w') = energyDispensed (hooks w) /\
  pending w' = pending w /\ nextCallId w' = nextCallId w /\
  network w' = network w /\ console w' = console w /\
  intervalRef w' = intervalRef w.
Proof.
  unfold elapsedEffect.
  destruct (sameDeps prev (hooks w)); [cbv zeta; repeat split |].
  destruct (status prev), (startTime prev), (timeIntervalRef w);
    cbn; destruct (status (hooks w)) eqn:Es, (startTime (hooks w)) eqn:Et;
    cbn; rewrite ?Es, ?Et; repeat split.
Qed.

(** Unless the new status is [Running], the effect does not write
    [elapsedSeconds]. *)
Lemma elapsedEffect_elapsed (prev : Hooks) (now : Z) (w : World) :
  status (hooks w) <> Running ->
  elapsedSeconds (hooks (elapsedEffect prev now w)) = elapsedSeconds (hooks w).
Proof.
  intro Hs. unfold elapsedEffect.
  destruct (sameDeps prev (hooks w)); [reflexivity |].
  destruct (status prev), (startTime prev), (timeIntervalRef w);
    cbn; destruct (status (hooks w)) eqn:Es, (startTime (hooks w)) eqn:Et;
    cbn; try reflexivity; contradiction Hs; reflexivity.
Qed.

Lemma elapsedEffect_same (w : World) (now : Z) : elapsedEffect (hooks w) now w = w.
Proof. unfold elapsedEffect. rewrite sameDeps_refl. reflexivity. Qed.

Lemma findKey_dropKey_other {A : Type} (k k' : nat) (l : list (nat * A)) :
  k' <> k -> findKey k (dropKey k' l) = findKey k l.
Proof.
  intro Hne. induction l as [| [j a] l IH]; [reflexivity |].
  unfold dropKey in *. cbn [filter fst findKey].
  destruct (Nat.eqb j k') eqn:Ej; cbn [negb].
  - apply Nat.eqb_eq in Ej. subst j.
    destruct (Nat.eqb k' k) eqn:Ek; [apply Nat.eqb_eq in Ek; contradiction | exact IH].
  - cbn [findKey]. destruct (Nat.eqb j k); [reflexivity | exact IH].
Qed.

Lemma callsGrow_refl (w : World) : callsGrow w w.
Proof. left. split; reflexivity. Qed.

Lemma callsGrow_callApi (r : Api.request) (k : continuation) (w w0 : World) :
  pending w = pending w0 -> nextCallId w = nextCallId w0 ->
  callsGrow w0 (callApi r k w).
Proof. intros Hp Hn. right. exists k. cbn. rewrite Hp, Hn. split; reflexivity. Qed.

Lemma inFlight_callsGrow (id : nat) (k : continuation) (w w' : World) :
  callsGrow w w' -> inFlight id k w -> inFlight id k w'.
Proof.
  intros [[Hp Hn] | (k' & Hp & Hn)] [Hf Hlt]; unfold inFlight; rewrite Hp, Hn.
  - split; assumption.
  - split; [| lia]. cbn [findKey].
    destruct (Nat.eqb (nextCallId w) id) eqn:E; [| exact Hf].
    apply Nat.eqb_eq in E. lia.
Qed.

Lemma sendUpdate_callsGrow (tid : string) (d : draws) (w : World) :
  callsGrow w (sendUpdate tid d w).
Proof.
  unfold sendUpdate. destruct (truthy tid).
  - right. eexists. split; reflexivity.
  - left. split; reflexivity.
Qed.

Lemma startSession_callsGrow (now : Z) (w : World) : callsGrow w (startSession now w).
Proof. right. eexists. split; reflexivity. Qed.

Lemma stopSession_callsGrow (w : World) : callsGrow w (stopSession w).
Proof.
  unfold stopSession, callsGrow. cbn.
  destruct (transactionId (hooks w)) as [tid |]; [destruct (truthy tid) |];
    destruct (intervalRef w); cbn; destruct (timeIntervalRef w); cbn;
    solve [left; split; reflexivity | right; eexists; split; reflexivity].
Qed.

Lemma handle_callsGrow (e : event) (w : World) :
  (forall id r now d, e <> CallSettles id r now d) ->
  callsGrow w (handle e w).
Proof.
  intro Hno. destruct e as [now | now | id now d | id r now d]; cbn [handle].
  - destruct (startButtonClickable (hooks w));
      [apply startSession_callsGrow | apply callsGrow_refl].
  - destruct (stopButtonClickable (hooks w));
      [apply stopSession_callsGrow | apply callsGrow_refl].
  - destruct (findKey id (intervals w)) as [[tid | st] |].
    + apply sendUpdate_callsGrow.
    + left. split; reflexivity.
    + apply callsGrow_refl.
  - exfalso. exact (Hno id r now d eq_refl).
Qed.

(** A call in flight stays in flight until the event that settles it. *)
Lemma step_keeps_inFlight (id : nat) (k : continuation) (w : World) (e : event) :
  settlesCall id e = false -> inFlight id k w -> inFlight id k (step w e).
Proof.
  intros Hs Hin. unfold step.
  destruct (elapsedEffect_frame (hooks w) (eventTime e) (handle e w))
    as (_ & _ & _ & _ & _ & _ & Hp & Hn & _).
  unfold inFlight. rewrite Hp, Hn. fold (inFlight id k (handle e w)).
  destruct e as [now | now | j now d | j r now d].
  - apply (inFlight_callsGrow id k w); [apply handle_callsGrow; discriminate | exact Hin].
  - apply (inFlight_callsGrow id k w); [apply handle_callsGrow; discriminate | exact Hin].
  - apply (inFlight_callsGrow id k w); [apply handle_callsGrow; discriminate | exact Hin].
  - cbn [settlesCall] in Hs. apply Nat.eqb_neq in Hs.
    cbn [handle]. destruct (findKey j (pending w)) as [kj |]; [| exact Hin].
    set (w1 := mkWorld (hooks w) (intervalRef w) (timeIntervalRef w) (intervals w)
                       (nextIntervalId w) (dropKey j (pending w)) (nextCallId w)
                       (nextObjectId w) (network w) (console w)).
    assert (Hin1 : inFlight id k w1).
    { destruct Hin as [Hf Hlt]. split; [| exact Hlt].
      cbn. rewrite findKey_dropKey_other by exact Hs. exact Hf. }
    destruct kj as [st | |].
    + destruct r as [tid | msg]; cbn [startSessionResume].
      * apply (inFlight_callsGrow id k (sendUpdate tid d
                 (withHooks (fun h => setStatus Running (setEnergyDispensed 0
                    (setElapsedSeconds 0%Z (setStartTime (Some st)
                       (setTransactionId (Some tid) h))))) w1))).
        -- left. split; reflexivity.
        -- apply (inFlight_callsGrow id k w1); [| exact Hin1].
           destruct (sendUpdate_callsGrow tid d
                       (withHooks (fun h => setStatus Running (setEnergyDispensed 0
                          (setElapsedSeconds 0%Z (setStartTime (Some st)
                             (setTransactionId (Some tid) h))))) w1)) as [H | H];
             [left | right]; exact H.
      * exact Hin1.
    + destruct r; exact Hin1.
    + destruct r; exact Hin1.
Qed.

Lemma run_keeps_inFlight (id : nat) (k : continuation) (es : list event) :
  forall w : World,
    Forall (fun e => settlesCall id e = false) es ->
    inFlight id k w -> inFlight id k (run w es).
Proof.
  unfold run. induction es as [| e es IH]; intros w Hall Hin; [exact Hin |].
  inversion Hall as [| ? ? He Hes]; subst. cbn [fold_left].
  apply IH; [exact Hes |]. apply step_keeps_inFlight; assumption.
Qed.

(** *** Stopping *)

Lemma stopSession_with_id (w : World) (tid : string) :
  transactionId (hooks w) = Some tid -> truthy tid = true ->
  network (stopSession w) = network w ++ [Api.endCharge tid] /\
  status (hooks (stopSession w)) = Stopping /\
  pending (stopSession w) = (nextCallId w, AfterEndCharge) :: pending w /\
  nextCallId (stopSession w) = S (nextCallId w) /\
  intervalRef (stopSession w) = None /\
  timeIntervalRef (stopSession w) = None.
Proof.
  intros Hid Htruthy. unfold stopSession. rewrite Hid, Htruthy. cbn.
  destruct (intervalRef w) eqn:Ei; cbn; destruct (timeIntervalRef w) eqn:Et; cbn;
    rewrite ?Ei, ?Et; repeat split; reflexivity.
Qed.

Lemma click_stop_running (w : World) (now : Z) :
  status (hooks w) = Running ->
  handle (ClickStop now) w = stopSession w.
Proof.
  intro Hst. cbn [handle]. unfold stopButtonClickable, isRunning.
  rewrite Hst. reflexivity.
Qed.

(** When the end call settles, either way, the session is torn down and
    nothing is sent. *)
Lemma end_call_settles (w : World) (id : nat) (r : Api.outcome) (now : Z) (d : draws) :
  findKey id (pending w) = Some AfterEndCharge ->
  network (step w (CallSettles id r now d)) = network w /\
  hooks (step w (CallSettles id r now d))
  = {| status := Idle;
       error := error (hooks w);
       transactionId := None;
       chargerState := initialChargerState;
       startTime := None;
       elapsedSeconds := 0%Z;
       energyDispensed := 0 |}.
Proof.
  intro Hf. unfold step. cbn [handle eventTime]. rewrite Hf.
  set (w' := stopSessionResume r _).
  assert (Hst : status (hooks w') = Idle) by (subst w'; destruct r; reflexivity).
  destruct (elapsedEffect_frame (hooks w) now w')
    as (Es & Ee & Et & Ec & Est & Een & _ & _ & En & _).
  assert (Eel : elapsedSeconds (hooks (elapsedEffect (hooks w) now w'))
                = elapsedSeconds (hooks w'))
    by (apply elapsedEffect_elapsed; rewrite Hst; discriminate).
  split; [rewrite En; subst w'; destruct r; reflexivity |].
  destruct (hooks (elapsedEffect (hooks w) now w')) as [s e t c st el en].
  cbn in Es, Ee, Et, Ec, Est, Een, Eel. subst s e t c st el en.
  subst w'. destruct r; reflexivity.
Qed.

(** C1, as stated, fails: a running session whose identifier is the empty
    string is stopped without any call to the collector. *)
Lemma stop_with_empty_identifier_sends_nothing :
  status (hooks runningNoIdWorld) = Running /\
  network (step runningNoIdWorld (ClickStop 3000)) = network runningNoIdWorld /\
  pending (step runningNoIdWorld (ClickStop 3000)) = [] /\
  status (hooks (step runningNoIdWorld (ClickStop 3000))) = Idle.
Proof. vm_compute. repeat split; reflexivity. Qed.

Lemma stopSession_falsy_id (w : World) :
  truthyId (transactionId (hooks w)) = false ->
  network (stopSession w) = network w /\
  pending (stopSession w) = pending w /\
  hooks (stopSession w)
  = {| status := Idle;
       error := error (hooks w);
       transactionId := None;
       chargerState := initialChargerState;
       startTime := None;
       elapsedSeconds := 0%Z;
       energyDispensed := 0 |}.
Proof.
  unfold truthyId, stopSession. intro H.
  destruct (transactionId (hooks w)) as [tid |]; [rewrite H |];
    cbn; destruct (intervalRef w); cbn; destruct (timeIntervalRef w); cbn;
    repeat split; reflexivity.
Qed.

(** C1, amended. Stopping a running session whose identifier is not empty
    sends exactly one end request, for that identifier; whatever else
    happens before that call settles, and whether it resolves or rejects,
    its settling sends nothing and leaves the machine idle, with energy and
    elapsed time zero, identifier and start time cleared and the charger
    state back at its initial value. Stopping a running session whose
    identifier is empty or absent sends nothing, leaves no call in flight
    and makes the same reset at once. *)
Theorem stop_running_session_resets
    (w : World) (tid : string) (now : Z)
    (between : list event) (r : Api.outcome) (now' : Z) (d : draws) :
  status (hooks w) = Running ->
  Forall (fun e => settlesCall (nextCallId w) e = false) between ->
  (transactionId (hooks w) = Some tid ->
   truthy tid = true ->
   network (step w (ClickStop now)) = network w ++ [Api.endCharge tid] /\
   status (hooks (step w (ClickStop now))) = Stopping /\
   network (step (run (step w (ClickStop now)) between)
                 (CallSettles (nextCallId w) r now' d))
   = network (run (step w (ClickStop now)) between) /\
   hooks (step (run (step w (ClickStop now)) between)
               (CallSettles (nextCallId w) r now' d))
   = {| status := Idle;
        error := error (hooks (run (step w (ClickStop now)) between));
        transactionId := None;
        chargerState := initialChargerState;
        startTime := None;
        elapsedSeconds := 0%Z;
        energyDispensed := 0 |}) /\
  (truthyId (transactionId (hooks w)) = false ->
   network (step w (ClickStop now)) = network w /\
   pending (step w (ClickStop now)) = pending w /\
   hooks (step w (ClickStop now))
   = {| status := Idle;
        error := error (hooks w);
        transactionId := None;
        chargerState := initialChargerState;
        startTime := None;
        elapsedSeconds := 0%Z;
        energyDispensed := 0 |}).
Proof.
  intros Hst Hbetween.
  assert (Hstep : step w (ClickStop now)
                  = elapsedEffect (hooks w) now (stopSession w))
    by (unfold step; rewrite (click_stop_running w now Hst); reflexivity).
  destruct (elapsedEffect_frame (hooks w) now (stopSession w))
    as (Es & Ee & Et & Ec & Est & Een & Ep & En & Enet & _).
  split.
  - intros Hid Htruthy.
    destruct (stopSession_with_id w tid Hid Htruthy) as (Hnet & Hstop & Hpend & Hnext & _).
    rewrite Hstep.
    split; [rewrite Enet; exact Hnet |].
    split; [rewrite Es; exact Hstop |].
    assert (Hin : inFlight (nextCallId w) AfterEndCharge
                    (elapsedEffect (hooks w) now (stopSession w))).
    { unfold inFlight. rewrite Ep, En, Hpend, Hnext. split; [| lia].
      cbn [findKey]. rewrite Nat.eqb_refl. reflexivity. }
    apply (run_keeps_inFlight _ _ between _ Hbetween) in Hin.
    destruct Hin as [Hf _].
    exact (end_call_settles _ _ r now' d Hf).
  - intro Hfalsy.
    destruct (stopSession_falsy_id w Hfalsy) as (Hnet & Hpend & Hh).
    rewrite Hstep.
    split; [rewrite Enet; exact Hnet |].
    split; [rewrite Ep; exact Hpend |].
    assert (Hidle : status (hooks (stopSession w)) <> Running)
      by (rewrite Hh; discriminate).
    pose proof (elapsedEffect_elapsed (hooks w) now (stopSession w) Hidle) as Eel.
    destruct (hooks (elapsedEffect (hooks w) now (stopSession w))) as [s e t c st el en].
    cbn in Es, Ee, Et, Ec, Est, Een, Eel. subst s e t c st el en.
    rewrite Hh. reflexivity.
Qed.

Lemma stop_running_session_resets_witness :
  (status (hooks runningWorld) = Running /\
   transactionId (hooks runningWorld) = Some "tx1"%string /\
   truthy "tx1" = true) /\
  (network (step runningWorld (ClickStop 3000))
   = network runningWorld ++ [Api.endCharge "tx1"] /\
   hooks (step (run (step runningWorld (ClickStop 3000))
                    [CallSettles 1 (Api.Rejected (Some "Failed to send charge update: 502"%string))
                                 3050 noDraw])
               (CallSettles 2 (Api.Rejected (Some "Failed to end charge: 500"%string))
                            3100 noDraw))
   = {| status := Idle;
        error := Some "Failed to send charge update: 502"%string;
        transactionId := None;
        chargerState := initialChargerState;
        startTime := None;
        elapsedSeconds := 0%Z;
        energyDispensed := 0 |}) /\
  (status (hooks runningNoIdWorld) = Running /\
   truthyId (transactionId (hooks runningNoIdWorld)) = false) /\
  network (step runningNoIdWorld (ClickStop 3000)) = network runningNoIdWorld /\
  status (hooks (step runningNoIdWorld (ClickStop 3000))) = Idle.
Proof.
  split; [repeat split; reflexivity |].
  assert (Hb : Forall (fun e => settlesCall (nextCallId runningWorld) e = false)
                 [CallSettles 1 (Api.Rejected (Some "Failed to send charge update: 502"%string))
                              3050 noDraw])
    by (constructor; [reflexivity | constructor]).
  destruct (stop_running_session_resets runningWorld "tx1" 3000
              [CallSettles 1 (Api.Rejected (Some "Failed to send charge update: 502"%string))
                           3050 noDraw]
              (Api.Rejected (Some "Failed to end charge: 500"%string)) 3100 noDraw
              eq_refl Hb) as [Hwith _].
  destruct (Hwith eq_refl eq_refl) as (Hnet & _ & _ & Hhooks).
  split; [split; [exact Hnet | exact Hhooks] |].
  split; [split; vm_compute; reflexivity |].
  destruct (stop_running_session_resets runningNoIdWorld EmptyString 3000 []
              (Api.Resolved EmptyString) 3100 noDraw
              ltac:(vm_compute; reflexivity) (Forall_nil _)) as [_ Hwithout].
  destruct (Hwithout ltac:(vm_compute; reflexivity)) as (Hnet' & _ & Hh').
  split; [exact Hnet' | rewrite Hh'; reflexivity].
Defined.

(** *** Starting *)

Lemma click_start_accepted (w : World) (now : Z) :
  status (hooks w) = Idle \/ status (hooks w) = Error ->
  step w (ClickStart now) = startSession now w.
Proof.
  intro Hst. unfold step. cbn [handle eventTime].
  assert (Hc : startButtonClickable (hooks w) = true)
    by (unfold startButtonClickable, isRunning; destruct Hst as [E | E]; rewrite E; reflexivity).
  rewrite Hc. unfold elapsedEffect.
  assert (Hd : sameDeps (hooks w) (hooks (startSession now w)) = false)
    by (unfold sameDeps; cbn; destruct Hst as [E | E]; rewrite E; reflexivity).
  rewrite Hd. destruct Hst as [E | E]; rewrite E; reflexivity.
Qed.

Lemma click_start_rejected (w : World) (now : Z) :
  status (hooks w) = Starting \/ status (hooks w) = Running ->
  step w (ClickStart now) = w.
Proof.
  intro Hst. unfold step. cbn [handle eventTime].
  assert (Hc : startButtonClickable (hooks w) = false)
    by (unfold startButtonClickable, isRunning; destruct Hst as [E | E]; rewrite E; reflexivity).
  rewrite Hc. apply elapsedEffect_same.
Qed.

(** C4, as stated, fails: in status error, which is not idle, a start
    request is accepted and a start request goes out to the collector. *)
Lemma start_in_error_calls_collector :
  status (hooks startFailedWorld) = Error /\
  status (hooks startFailedWorld) <> Idle /\
  network (step startFailedWorld (ClickStart 2000))
  = network startFailedWorld ++ [Api.startCharge 2000 (toFixed2 INITIAL_SOC)] /\
  network (step startFailedWorld (ClickStart 2000)) <> network startFailedWorld.
Proof.
  vm_compute. repeat split; try reflexivity; intro H; discriminate H.
Qed.

(** C4, amended. In status starting or running a start request changes
    nothing and sends nothing. In status idle or error it is accepted: one
    start request goes out, the status becomes starting, and while the
    status is starting a further start request is rejected. *)
Theorem start_request_gate (w : World) (now now' : Z) :
  match status (hooks w) with
  | Starting | Running =>
      step w (ClickStart now) = w /\
      network (step w (ClickStart now)) = network w
  | Idle | Error =>
      network (step w (ClickStart now))
      = network w ++ [Api.startCharge now (toFixed2 INITIAL_SOC)] /\
      status (hooks (step w (ClickStart now))) = Starting /\
      step (step w (ClickStart now)) (ClickStart now') = step w (ClickStart now)
  | Stopping => True
  end.
Proof.
  destruct (status (hooks w)) eqn:Hst.
  - rewrite (click_start_accepted w now (or_introl Hst)).
    repeat split. apply click_start_rejected. left. reflexivity.
  - rewrite (click_start_rejected w now (or_introl Hst)). split; reflexivity.
  - rewrite (click_start_rejected w now (or_intror Hst)). split; reflexivity.
  - exact I.
  - rewrite (click_start_accepted w now (or_intror Hst)).
    repeat split. apply click_start_rejected. left. reflexivity.
Qed.

(** *** Update failures *)

Lemma sendUpdateSettled_keeps_intervals (r : Api.outcome) (w : World) :
  intervals (sendUpdateSettled r w) = intervals w /\
  intervalRef (sendUpdateSettled r w) = intervalRef w /\
  chargerState (hooks (sendUpdateSettled r w)) = chargerState (hooks w) /\
  energyDispensed (hooks (sendUpdateSettled r w)) = energyDispensed (hooks w).
Proof. destruct r; repeat split; reflexivity. Qed.

Lemma sendUpdateSettled_rejected (message : option string) (w : World) :
  status (hooks (sendUpdateSettled (Api.Rejected message) w)) = Error /\
  error (hooks (sendUpdateSettled (Api.Rejected message) w)) = message.
Proof. split; reflexivity. Qed.

(** C2, on the code. After the first update of a running session has
    failed, the error is recorded, the status is error and the generated
    state and energy are kept; but the interval that drives the ticks is
    still registered, and when it fires next a further update request is
    sent. *)
Theorem update_failure_keeps_ticking :
  status (hooks updateFailedWorld) = Error /\
  error (hooks updateFailedWorld) = Some "Failed to send charge update: 500"%string /\
  chargerState (hooks updateFailedWorld) = chargerState (hooks runningWorld) /\
  energyDispensed (hooks updateFailedWorld) = energyDispensed (hooks runningWorld) /\
  intervalRef updateFailedWorld = Some 0%nat /\
  findKey 0 (intervals updateFailedWorld) = Some (CallSendUpdate "tx1") /\
  network (step updateFailedWorld (IntervalFires 0 2500 halfDraw))
  = network updateFailedWorld
    ++ [Api.sendChargeUpdate "tx1"
          (toPayload (generateNextState (chargerState (hooks updateFailedWorld)) halfDraw))].
Proof. vm_compute. repeat split; reflexivity. Qed.

(** C3, on the code. A session is stopped while its first update is still
    in flight, and the end call is acknowledged: the machine is idle. When
    the update then fails, its handler sets the status to error. *)
Theorem late_update_failure_leaves_idle :
  status (hooks stoppedWorld) = Idle /\
  findKey 1 (pending stoppedWorld) = Some AfterSendChargeUpdate /\
  status (hooks (step stoppedWorld
                   (CallSettles 1 (Api.Rejected (Some "Failed to send charge update: 504"%string))
                                3200 noDraw))) = Error /\
  error (hooks (step stoppedWorld
                  (CallSettles 1 (Api.Rejected (Some "Failed to send charge update: 504"%string))
                               3200 noDraw)))
  = Some "Failed to send charge update: 504"%string.
Proof. vm_compute. repeat split; reflexivity. Qed.

(** *** The end request *)

Lemma endCharge_has_no_body (tid : string) (payload : Api.ChargeUpdatePayload) :
  Api.body (Api.endCharge tid) = None /\
  Api.body (Api.endCharge tid) <> Some (Api.UpdateBody payload).
Proof. split; [reflexivity | discriminate]. Qed.

(** C6, on the code. Stopping a running session sends one request to the
    end point of the session, and that request has no body: the snapshot
    that [stopSession] rounds into a payload is not in it. *)
Theorem end_request_has_no_body :
  network (step runningWorld (ClickStop 3000))
  = network runningWorld ++ [Api.endCharge "tx1"] /\
  Api.endCharge "tx1" = {| Api.url := Api.charge_end "tx1"; Api.body := None |} /\
  Api.body (Api.endCharge "tx1")
  <> Some (Api.UpdateBody (toPayload (chargerState (hooks runningWorld)))).
Proof.
  split; [vm_compute; reflexivity |].
  split; [reflexivity | apply endCharge_has_no_body].
Qed.

(** * Further properties of the code *)

(** ** The generator over many ticks *)

Lemma Qdiv_100 (x : Q) : x / 100 == x * (1 # 100).
Proof. unfold Qdiv. reflexivity. Qed.

Lemma inject_nat_nonneg (n : nat) : 0 <= inject_Z (Z.of_nat n).
Proof.
  change 0 with (inject_Z 0). rewrite <- Zle_Qle. apply Nat2Z.is_nonneg.
Qed.

Lemma inject_nat_succ (n : nat) :
  inject_Z (Z.of_nat (S n)) == inject_Z (Z.of_nat n) + 1.
Proof. rewrite Nat2Z.inj_succ, <- Z.add_1_r, inject_Z_plus. reflexivity. Qed.

Lemma temp_next_bounds (prev : ChargerState) (d : draws) :
  unit_draw (r_temp d) ->
  tempC prev <= tempC (generateNextState prev d) /\
  tempC (generateNextState prev d) < tempC prev + 0.5.
Proof.
  intros [H0 H1].
  change (tempC (generateNextState prev d)) with (tempC prev + r_temp d * 0.5).
  split; lra.
Qed.

Lemma generateMany_temp (ds : list draws) :
  forall s : ChargerState,
    Forall valid_draws ds ->
    tempC s <= tempC (generateMany s ds) /\
    tempC (generateMany s ds) <= tempC s + inject_Z (Z.of_nat (List.length ds)) * 0.5.
Proof.
  induction ds as [| d ds IH]; intros s Hall.
  - cbn [generateMany List.length]. change (inject_Z (Z.of_nat 0)) with 0. split; lra.
  - inversion Hall as [| ? ? Hd Hds]; subst.
    destruct Hd as (_ & _ & _ & Ht).
    destruct (temp_next_bounds s d Ht) as [Hlo Hhi].
    destruct (IH (generateNextState s d) Hds) as [Hlo' Hhi'].
    cbn [generateMany List.length]. rewrite inject_nat_succ. split; lra.
Qed.

(** X1. Along any sequence of ticks the temperature never decreases, and
    over n ticks it rises by at most n/2 degrees. *)
Theorem temperature_never_decreases (s : ChargerState) (earlier later : list draws) :
  Forall valid_draws later ->
  tempC (generateMany s earlier) <= tempC (generateMany s (earlier ++ later)) /\
  tempC (generateMany s (earlier ++ later))
  <= tempC (generateMany s earlier) + inject_Z (Z.of_nat (List.length later)) * 0.5.
Proof.
  intro Hlater. rewrite generateMany_app.
  exact (generateMany_temp later (generateMany s earlier) Hlater).
Qed.

Lemma temperature_never_decreases_witness :
  Forall valid_draws [halfDraw; noDraw] /\
  tempC (generateMany initialChargerState [halfDraw])
  <= tempC (generateMany initialChargerState ([halfDraw] ++ [halfDraw; noDraw])) /\
  tempC (generateMany initialChargerState ([halfDraw] ++ [halfDraw; noDraw]))
  <= tempC (generateMany initialChargerState [halfDraw])
     + inject_Z (Z.of_nat (List.length [halfDraw; noDraw])) * 0.5.
Proof.
  assert (H : Forall valid_draws [halfDraw; noDraw]).
  { constructor; [exact halfDraw_valid |].
    constructor; [exact noDraw_valid | constructor]. }
  split; [exact H |].
  exact (temperature_never_decreases initialChargerState [halfDraw] [halfDraw; noDraw] H).
Defined.

Lemma generateMany_soc_window (ds : list draws) :
  forall s : ChargerState,
    soc s <= 90 -> Forall valid_draws ds ->
    Qmin 90 (soc s + inject_Z (Z.of_nat (List.length ds))) <= soc (generateMany s ds) /\
    soc (generateMany s ds) <= Qmin 90 (soc s + 2 * inject_Z (Z.of_nat (List.length ds))).
Proof.
  induction ds as [| d ds IH]; intros s Hle Hall.
  - cbn [generateMany List.length]. change (inject_Z (Z.of_nat 0)) with 0.
    destruct (Q.min_spec 90 (soc s + 0)) as [[? E1] | [? E1]];
      destruct (Q.min_spec 90 (soc s + 2 * 0)) as [[? E2] | [? E2]];
      rewrite E1, E2; split; lra.
  - inversion Hall as [| ? ? Hd Hds]; subst.
    destruct Hd as [[H0 H1] _].
    pose proof (soc_next s d) as Hnext. unfold TARGET_SOC in Hnext.
    destruct (soc_next_bounds s d Hle (conj H0 H1)) as (_ & Hcap & _).
    destruct (IH (generateNextState s d) Hcap Hds) as [Hlo Hhi].
    cbn [generateMany List.length]. rewrite inject_nat_succ.
    pose proof (inject_nat_nonneg (List.length ds)) as Hn.
    set (n := inject_Z (Z.of_nat (List.length ds))) in *.
    set (final := soc (generateMany (generateNextState s d) ds)) in *.
    rewrite Hnext in Hlo, Hhi.
    destruct (Q.min_spec 90 (soc s + 1 + r_soc d * 1)) as [[? E0] | [? E0]];
      rewrite E0 in Hlo, Hhi;
      destruct (Q.min_spec 90 (soc s + (n + 1))) as [[? E1] | [? E1]];
      destruct (Q.min_spec 90 (soc s + 2 * (n + 1))) as [[? E2] | [? E2]];
      rewrite E1, E2;
      [ destruct (Q.min_spec 90 (90 + n)) as [[? E3] | [? E3]];
        destruct (Q.min_spec 90 (90 + 2 * n)) as [[? E4] | [? E4]]
      | destruct (Q.min_spec 90 (90 + n)) as [[? E3] | [? E3]];
        destruct (Q.min_spec 90 (90 + 2 * n)) as [[? E4] | [? E4]]
      | destruct (Q.min_spec 90 (90 + n)) as [[? E3] | [? E3]];
        destruct (Q.min_spec 90 (90 + 2 * n)) as [[? E4] | [? E4]]
      | destruct (Q.min_spec 90 (90 + n)) as [[? E3] | [? E3]];
        destruct (Q.min_spec 90 (90 + 2 * n)) as [[? E4] | [? E4]]
      | destruct (Q.min_spec 90 (soc s + 1 + r_soc d * 1 + n)) as [[? E3] | [? E3]];
        destruct (Q.min_spec 90 (soc s + 1 + r_soc d * 1 + 2 * n)) as [[? E4] | [? E4]]
      | destruct (Q.min_spec 90 (soc s + 1 + r_soc d * 1 + n)) as [[? E3] | [? E3]];
        destruct (Q.min_spec 90 (soc s + 1 + r_soc d * 1 + 2 * n)) as [[? E4] | [? E4]]
      | destruct (Q.min_spec 90 (soc s + 1 + r_soc d * 1 + n)) as [[? E3] | [? E3]];
        destruct (Q.min_spec 90 (soc s + 1 + r_soc d * 1 + 2 * n)) as [[? E4] | [? E4]]
      | destruct (Q.min_spec 90 (soc s + 1 + r_soc d * 1 + n)) as [[? E3] | [? E3]];
        destruct (Q.min_spec 90 (soc s + 1 + r_soc d * 1 + 2 * n)) as [[? E4] | [? E4]] ];
      rewrite E3 in Hlo; rewrite E4 in Hhi; split; lra.
Qed.

(** X2. After n ticks from a state of charge [s] in [0, 90] the state of
    charge has grown by about one to two points per tick, with room for the
    rounding of the additions: it lies between min(90, s + 0.999 n) and
    min(90, s + 2.001 n); the target is reached within 90 - s + 1 ticks, and
    it is not reached while 2 n + 1 <= 90 - s. *)
Theorem soc_after_ticks (s : ChargerState) (ds : list draws) :
  0 <= soc s -> soc s <= 90 -> Forall valid_draws ds ->
  (Qmin 90 (soc s + (999 # 1000) * inject_Z (Z.of_nat (List.length ds)))
   <= soc (generateMany s ds) /\
   soc (generateMany s ds)
   <= Qmin 90 (soc s + (2001 # 1000) * inject_Z (Z.of_nat (List.length ds)))) /\
  (90 - soc s + 1 <= inject_Z (Z.of_nat (List.length ds)) -> soc (generateMany s ds) == 90) /\
  (2 * inject_Z (Z.of_nat (List.length ds)) + 1 <= 90 - soc s -> soc (generateMany s ds) < 90).
Proof.
  intros _ Hle Hall.
  destruct (generateMany_soc_window ds s Hle Hall) as [Hlo Hhi].
  destruct (generateMany_soc ds s Hle Hall) as (_ & Hcap & _).
  pose proof (inject_nat_nonneg (List.length ds)) as Hn.
  set (n := inject_Z (Z.of_nat (List.length ds))) in *.
  split; [split |]; [| | split].
  - destruct (Q.min_spec 90 (soc s + n)) as [[? E] | [? E]]; rewrite E in Hlo;
      destruct (Q.min_spec 90 (soc s + (999 # 1000) * n)) as [[? E'] | [? E']];
      rewrite E'; lra.
  - destruct (Q.min_spec 90 (soc s + 2 * n)) as [[? E] | [? E]]; rewrite E in Hhi;
      destruct (Q.min_spec 90 (soc s + (2001 # 1000) * n)) as [[? E'] | [? E']];
      rewrite E'; lra.
  - intro Hlen. destruct (Q.min_spec 90 (soc s + n)) as [[? E] | [? E]];
      rewrite E in Hlo; lra.
  - intro Hlen. destruct (Q.min_spec 90 (soc s + 2 * n)) as [[? E] | [? E]];
      rewrite E in Hhi; lra.
Qed.

Lemma soc_after_ticks_witness :
  (0 <= soc initialChargerState /\ soc initialChargerState <= 90 /\
   Forall valid_draws [halfDraw; noDraw]) /\
  (90 - soc initialChargerState + 1 <= inject_Z (Z.of_nat (List.length [halfDraw; noDraw])) ->
   soc (generateMany initialChargerState [halfDraw; noDraw]) == 90) /\
  (2 * inject_Z (Z.of_nat (List.length [halfDraw; noDraw])) + 1 <= 90 - soc initialChargerState ->
   soc (generateMany initialChargerState [halfDraw; noDraw]) < 90).
Proof.
  assert (H0 : 0 <= soc initialChargerState) by (simpl; unfold INITIAL_SOC; lra).
  assert (H90 : soc initialChargerState <= 90) by (simpl; unfold INITIAL_SOC; lra).
  assert (H : Forall valid_draws [halfDraw; noDraw]).
  { constructor; [exact halfDraw_valid |].
    constructor; [exact noDraw_valid | constructor]. }
  split; [repeat split; assumption |].
  exact (proj2 (soc_after_ticks initialChargerState [halfDraw; noDraw] H0 H90 H)).
Defined.

(** ** The power curve *)

(** The power before noise, as a function of the new state of charge. *)
Lemma power_base_at_most_90 (x : Q) :
  x <= 90 ->
  (11 # 20) <= Qmax 0.2 (1 - Qmax 0 (x / 100 - 0.6) * 1.5).
Proof.
  intro Hx. rewrite Qdiv_100.
  destruct (Q.max_spec 0 (x * (1 # 100) - 0.6)) as [[Ha Ea] | [Ha Ea]];
    destruct (Q.max_spec 0.2 (1 - Qmax 0 (x * (1 # 100) - 0.6) * 1.5)) as [[Hb Eb] | [Hb Eb]];
    rewrite Eb; rewrite ?Ea; rewrite Ea in Hb; lra.
Qed.

Lemma power_base_flat_to_60 (x : Q) :
  x <= 60 ->
  Qmax 0.2 (1 - Qmax 0 (x / 100 - 0.6) * 1.5) == 1.
Proof.
  intro Hx. rewrite Qdiv_100.
  destruct (Q.max_spec 0 (x * (1 # 100) - 0.6)) as [[Ha Ea] | [Ha Ea]];
    destruct (Q.max_spec 0.2 (1 - Qmax 0 (x * (1 # 100) - 0.6) * 1.5)) as [[Hb Eb] | [Hb Eb]];
    rewrite Eb; rewrite ?Ea; rewrite Ea in Hb; lra.
Qed.

Lemma power_base_antitone (x y : Q) :
  x <= y ->
  Qmax 0.2 (1 - Qmax 0 (y / 100 - 0.6) * 1.5)
  <= Qmax 0.2 (1 - Qmax 0 (x / 100 - 0.6) * 1.5).
Proof.
  intro Hxy. rewrite !Qdiv_100.
  destruct (Q.max_spec 0 (x * (1 # 100) - 0.6)) as [[Ha Ea] | [Ha Ea]];
    destruct (Q.max_spec 0 (y * (1 # 100) - 0.6)) as [[Hc Ec] | [Hc Ec]];
    destruct (Q.max_spec 0.2 (1 - Qmax 0 (x * (1 # 100) - 0.6) * 1.5)) as [[Hb Eb] | [Hb Eb]];
    destruct (Q.max_spec 0.2 (1 - Qmax 0 (y * (1 # 100) - 0.6) * 1.5)) as [[Hd Ed] | [Hd Ed]];
    rewrite Eb, Ed; rewrite ?Ea, ?Ec; rewrite Ea in Hb; rewrite Ec in Hd; lra.
Qed.

Lemma soc_next_monotone (p1 p2 : ChargerState) (d : draws) :
  soc p1 <= soc p2 ->
  soc (generateNextState p1 d) <= soc (generateNextState p2 d).
Proof.
  intro H. rewrite !soc_next.
  apply Q.min_le_compat_l. lra.
Qed.

(** X3. Because the new state of charge is clamped to 90 before the power
    is computed, the generated power stays far above the floor of 0.2 of
    the maximum: it is at least 24749 W for every previous state (24750 up
    to rounding); up to a state of charge of 60 there is no taper (at least
    45000 W); and with the same draws a higher previous state of charge
    never gives more power. *)
Theorem power_taper (prev higher : ChargerState) (d : draws) :
  valid_draws d ->
  24749 <= powerW (generateNextState prev d) /\
  (soc (generateNextState prev d) <= 60 -> 45000 <= powerW (generateNextState prev d)) /\
  (soc prev <= soc higher ->
   powerW (generateNextState higher d) <= powerW (generateNextState prev d)).
Proof.
  intros (_ & _ & [H0 H1] & _).
  assert (Hcap : soc (generateNextState prev d) <= 90)
    by (rewrite soc_next; unfold TARGET_SOC; apply Q.le_min_l).
  split; [| split].
  - rewrite power_next.
    pose proof (power_base_at_most_90 _ Hcap) as Hb.
    set (t := Qmax 0.2 _) in *. nra.
  - intro H60. rewrite power_next.
    pose proof (power_base_flat_to_60 _ H60) as Hb.
    set (t := Qmax 0.2 _) in *. nra.
  - intro Hle. rewrite !power_next.
    pose proof (power_base_antitone _ _ (soc_next_monotone prev higher d Hle)) as Hb.
    set (t1 := Qmax 0.2 (1 - Qmax 0 (soc (generateNextState higher d) / 100 - 0.6) * 1.5)) in *.
    set (t2 := Qmax 0.2 (1 - Qmax 0 (soc (generateNextState prev d) / 100 - 0.6) * 1.5)) in *.
    nra.
Qed.

Lemma power_taper_witness :
  valid_draws halfDraw /\
  24749 <= powerW (generateNextState initialChargerState halfDraw) /\
  (soc (generateNextState initialChargerState halfDraw) <= 60 ->
   45000 <= powerW (generateNextState initialChargerState halfDraw)) /\
  (soc initialChargerState <= soc (generateNextState initialChargerState noDraw) ->
   powerW (generateNextState (generateNextState initialChargerState noDraw) halfDraw)
   <= powerW (generateNextState initialChargerState halfDraw)).
Proof.
  split; [exact halfDraw_valid |].
  exact (power_taper initialChargerState (generateNextState initialChargerState noDraw)
           halfDraw halfDraw_valid).
Defined.

(** ** Rounding to two decimals *)

Lemma Qfloor_unique (y : Q) (n : Z) :
  inject_Z n <= y -> y < inject_Z n + 1 -> Qfloor y = n.
Proof.
  intros Hlo Hhi.
  assert (H1 : (n <= Qfloor y)%Z).
  { rewrite <- (Qfloor_Z n). apply Qfloor_resp_le. exact Hlo. }
  assert (H2 : (Qfloor y < n + 1)%Z).
  { rewrite Zlt_Qlt, inject_Z_plus. pose proof (Qfloor_le y).
    change (inject_Z 1) with 1. lra. }
  lia.
Qed.


Lemma toFixed2_nonneg (x : Q) :
  0 <= x -> toFixed2 x = inject_Z (Qfloor (x * 100 + (1 # 2))) / 100.
Proof.
  intro H. unfold toFixed2.
  destruct (Qle_bool 0 x) eqn:E; [reflexivity |].
  apply Qle_bool_iff in H. congruence.
Qed.

Lemma toFixed2_neg (x : Q) :
  x < 0 -> toFixed2 x = - (inject_Z (Qfloor ((- x) * 100 + (1 # 2))) / 100).
Proof.
  intro H. unfold toFixed2.
  destruct (Qle_bool 0 x) eqn:E; [| reflexivity].
  apply Qle_bool_iff in E. lra.
Qed.

Lemma toFixed2_comp (x y : Q) : x == y -> toFixed2 x == toFixed2 y.
Proof.
  intro H. unfold toFixed2. rewrite (Qleb_comp 0 0 (Qeq_refl 0) x y H).
  assert (E1 : Qfloor (x * 100 + (1 # 2)) = Qfloor (y * 100 + (1 # 2)))
    by (apply Qfloor_comp; rewrite H; reflexivity).
  assert (E2 : Qfloor (- x * 100 + (1 # 2)) = Qfloor (- y * 100 + (1 # 2)))
    by (apply Qfloor_comp; rewrite H; reflexivity).
  rewrite E1, E2. reflexivity.
Qed.

Lemma toFixed2_grid (k : Z) : toFixed2 (inject_Z k / 100) == inject_Z k / 100.
Proof.
  destruct (Qlt_le_dec (inject_Z k / 100) 0) as [Hneg | Hpos].
  - rewrite (toFixed2_neg _ Hneg).
    assert (E : Qfloor (- (inject_Z k / 100) * 100 + (1 # 2)) = (- k)%Z).
    { apply Qfloor_unique; rewrite inject_Z_opp; rewrite Qdiv_100; lra. }
    rewrite E, inject_Z_opp. rewrite !Qdiv_100. ring.
  - rewrite (toFixed2_nonneg _ Hpos).
    assert (E : Qfloor (inject_Z k / 100 * 100 + (1 # 2)) = k).
    { apply Qfloor_unique; rewrite Qdiv_100; lra. }
    rewrite E. reflexivity.
Qed.

Lemma toFixed2_on_grid (x : Q) : exists k : Z, toFixed2 x == inject_Z k / 100.
Proof.
  destruct (Qlt_le_dec x 0) as [Hneg | Hpos].
  - exists (- Qfloor (- x * 100 + (1 # 2)))%Z.
    rewrite (toFixed2_neg _ Hneg), inject_Z_opp. rewrite !Qdiv_100. ring.
  - exists (Qfloor (x * 100 + (1 # 2))).
    rewrite (toFixed2_nonneg _ Hpos). reflexivity.
Qed.


Lemma toFixed2_sign (x : Q) :
  (0 <= x -> 0 <= toFixed2 x) /\ (x <= 0 -> toFixed2 x <= 0).
Proof.
  split; intro H.
  - rewrite (toFixed2_nonneg _ H). rewrite Qdiv_100.
    assert (Hz : (0 <= Qfloor (x * 100 + (1 # 2)))%Z).
    { rewrite <- (Qfloor_Z 0). apply Qfloor_resp_le. change (inject_Z 0) with 0. lra. }
    rewrite Zle_Qle in Hz. change (inject_Z 0) with 0 in Hz. lra.
  - destruct (Qlt_le_dec x 0) as [Hneg | Hpos].
    + rewrite (toFixed2_neg _ Hneg). rewrite Qdiv_100.
      assert (Hz : (0 <= Qfloor (- x * 100 + (1 # 2)))%Z).
      { rewrite <- (Qfloor_Z 0). apply Qfloor_resp_le. change (inject_Z 0) with 0. lra. }
      rewrite Zle_Qle in Hz. change (inject_Z 0) with 0 in Hz. lra.
    + assert (E : x == 0) by lra.
      rewrite (toFixed2_comp _ _ E). apply Qle_lteq. right. reflexivity.
Qed.

Lemma toFixed2_monotone (x y : Q) : x <= y -> toFixed2 x <= toFixed2 y.
Proof.
  intro Hxy.
  destruct (Qlt_le_dec x 0) as [Hx | Hx]; destruct (Qlt_le_dec y 0) as [Hy | Hy].
  - rewrite (toFixed2_neg _ Hx), (toFixed2_neg _ Hy).
    assert (Hz : (Qfloor (- y * 100 + (1 # 2)) <= Qfloor (- x * 100 + (1 # 2)))%Z)
      by (apply Qfloor_resp_le; lra).
    rewrite Zle_Qle in Hz. rewrite !Qdiv_100. lra.
  - destruct (toFixed2_sign x) as [_ H1]. destruct (toFixed2_sign y) as [H2 _].
    specialize (H1 (Qlt_le_weak _ _ Hx)). specialize (H2 Hy). lra.
  - lra.
  - rewrite (toFixed2_nonneg _ Hx), (toFixed2_nonneg _ Hy).
    assert (Hz : (Qfloor (x * 100 + (1 # 2)) <= Qfloor (y * 100 + (1 # 2)))%Z)
      by (apply Qfloor_resp_le; lra).
    rewrite Zle_Qle in Hz. rewrite !Qdiv_100. lra.
Qed.


(** X5. Rounding is idempotent, monotone and odd: a rounded value is not
    changed by rounding it again, the order of two values is never
    inverted, and the rounding of [-x] is the negation of the rounding of
    [x] (ties go away from zero on both sides). *)
Theorem toFixed2_idempotent_monotone_odd (x y : Q) :
  toFixed2 (toFixed2 x) == toFixed2 x /\
  (x <= y -> toFixed2 x <= toFixed2 y) /\
  toFixed2 (- x) == - toFixed2 x.
Proof.
  split; [| split].
  - destruct (toFixed2_on_grid x) as [k Hk].
    rewrite (toFixed2_comp _ _ Hk), toFixed2_grid, Hk. reflexivity.
  - apply toFixed2_monotone.
  - destruct (Qlt_le_dec x 0) as [Hneg | Hpos].
    + rewrite (toFixed2_neg _ Hneg).
      assert (H : 0 <= - x) by lra.
      rewrite (toFixed2_nonneg _ H). ring.
    + destruct (Qlt_le_dec 0 x) as [Hpos' | Hzero].
      * assert (H : - x < 0) by lra.
        rewrite (toFixed2_neg _ H), (toFixed2_nonneg _ Hpos).
        assert (E : Qfloor (- - x * 100 + (1 # 2)) = Qfloor (x * 100 + (1 # 2)))
          by (apply Qfloor_comp; ring).
        rewrite E. reflexivity.
      * assert (E0 : x == 0) by lra.
        assert (E1 : - x == 0) by lra.
        rewrite (toFixed2_comp _ _ E0), (toFixed2_comp _ _ E1). reflexivity.
Qed.

(** ** What a tick transmits *)

Lemma power_at_least_24750 (prev : ChargerState) (d : draws) :
  unit_draw (r_power d) -> 24750 <= powerW (generateNextState prev d).
Proof.
  intros [H0 H1].
  assert (Hcap : soc (generateNextState prev d) <= 90)
    by (rewrite soc_next; unfold TARGET_SOC; apply Q.le_min_l).
  rewrite power_next.
  pose proof (power_base_at_most_90 _ Hcap) as Hb.
  set (t := Qmax 0.2 _) in *. nra.
Qed.

Lemma current_value_bounds (prev : ChargerState) (d : draws) :
  valid_draws d ->
  exists i : Q,
    currentA (generateNextState prev d) = Fin i /\ 58 <= i /\ i <= 145.
Proof.
  intros (_ & Hv & Hp & _).
  destruct (voltage_band prev d Hv) as [Vlo Vhi].
  destruct (power_bounds prev d Hp) as [_ Phi].
  pose proof (power_at_least_24750 prev d Hp) as Plo.
  assert (Hnz : ~ voltageV (generateNextState prev d) == 0)
    by (intro Hz; rewrite Hz in Vlo; lra).
  rewrite current_next, (js_div_nonzero _ _ Hnz).
  eexists; split; [reflexivity |].
  set (p := powerW (generateNextState prev d)) in *.
  set (v := voltageV (generateNextState prev d)) in *.
  assert (Hq : (p / v) * v == p) by (field; exact Hnz).
  set (q := p / v) in *.
  split; nra.
Qed.

Lemma toFixed2_between (lo hi x : Q) :
  toFixed2 lo == lo -> toFixed2 hi == hi ->
  lo <= x -> x <= hi -> lo <= toFixed2 x /\ toFixed2 x <= hi.
Proof.
  intros Elo Ehi Hlo Hhi.
  pose proof (toFixed2_monotone _ _ Hlo) as H1.
  pose proof (toFixed2_monotone _ _ Hhi) as H2.
  rewrite Elo in H1. rewrite Ehi in H2. split; assumption.
Qed.

(** X6. The payload built for a tick stays in the physical ranges after
    rounding: from a state of charge in [0, 90] the transmitted [soc] is a
    percentage between 1 and 90 (not a fraction of 1), the voltage lies in
    [380, 420], the power in [24750, 55000], the current is a finite number
    in [58, 145], the temperature is not below the rounded previous one, and
    the sample time increment is the tick interval. *)
Theorem tick_payload_in_range (prev : ChargerState) (d : draws) :
  0 <= soc prev -> soc prev <= 90 -> valid_draws d ->
  Api.sample_time_increment (toPayload (generateNextState prev d)) = INTERVAL_SECONDS /\
  (1 <= Api.soc (toPayload (generateNextState prev d)) /\
   Api.soc (toPayload (generateNextState prev d)) <= 90) /\
  (380 <= Api.avg_voltage_v (toPayload (generateNextState prev d)) /\
   Api.avg_voltage_v (toPayload (generateNextState prev d)) <= 420) /\
  (24750 <= Api.avg_power_w (toPayload (generateNextState prev d)) /\
   Api.avg_power_w (toPayload (generateNextState prev d)) <= 55000) /\
  (exists i : Q,
      Api.avg_current_a (toPayload (generateNextState prev d)) = Fin i /\
      58 <= i /\ i <= 145) /\
  toFixed2 (tempC prev) <= Api.temp_c (toPayload (generateNextState prev d)).
Proof.
  intros H0 H90 Hd.
  pose proof Hd as (Hs & Hv & Hp & Ht).
  split; [reflexivity |]. cbn [toPayload Api.soc Api.avg_voltage_v Api.avg_power_w
                                Api.avg_current_a Api.temp_c].
  split; [| split; [| split; [| split]]].
  - destruct (soc_next_bounds prev d H90 Hs) as (_ & Hcap & _).
    apply toFixed2_between; try reflexivity; [| exact Hcap].
    rewrite soc_next. unfold TARGET_SOC. destruct Hs as [Hs0 Hs1].
    destruct (Q.min_spec 90 (soc prev + 1 + r_soc d * 1)) as [[_ E] | [_ E]];
      rewrite E; lra.
  - destruct (voltage_band prev d Hv) as [Vlo Vhi].
    apply toFixed2_between; try reflexivity; lra.
  - destruct (power_bounds prev d Hp) as [_ Phi].
    pose proof (power_at_least_24750 prev d Hp) as Plo.
    apply toFixed2_between; try reflexivity; lra.
  - destruct (current_value_bounds prev d Hd) as (i & Ei & Ilo & Ihi).
    rewrite Ei. cbn [toFixed2_js]. eexists; split; [reflexivity |].
    apply toFixed2_between; try reflexivity; assumption.
  - apply toFixed2_monotone. destruct (temp_next_bounds prev d Ht) as [Hlo _]. exact Hlo.
Qed.

Lemma tick_payload_in_range_witness :
  (0 <= soc initialChargerState /\ soc initialChargerState <= 90 /\ valid_draws halfDraw) /\
  (1 <= Api.soc (toPayload (generateNextState initialChargerState halfDraw)) /\
   Api.soc (toPayload (generateNextState initialChargerState halfDraw)) <= 90).
Proof.
  assert (H0 : 0 <= soc initialChargerState) by (simpl; unfold INITIAL_SOC; lra).
  assert (H90 : soc initialChargerState <= 90) by (simpl; unfold INITIAL_SOC; lra).
  split; [repeat split; try assumption; apply halfDraw_valid |].
  exact (proj1 (proj2 (tick_payload_in_range initialChargerState halfDraw H0 H90 halfDraw_valid))).
Defined.

(** ** Starting a session *)

Lemma status_eqb_eq (a b : SessionStatus) : status_eqb a b = true <-> a = b.
Proof. destruct a, b; cbn; split; intro H; try reflexivity; discriminate H. Qed.

(** A render in which the status is not [Running] registers no interval
    and leaves [elapsedSeconds] and [timeIntervalRef] as they are. *)
Lemma elapsedEffect_not_running (prev : Hooks) (now : Z) (w : World) :
  status (hooks w) <> Running ->
  hooks (elapsedEffect prev now w) = hooks w /\
  nextIntervalId (elapsedEffect prev now w) = nextIntervalId w /\
  timeIntervalRef (elapsedEffect prev now w) = timeIntervalRef w /\
  (intervals (elapsedEffect prev now w) = intervals w \/
   exists id, timeIntervalRef w = Some id /\ status prev = Running /\
              intervals (elapsedEffect prev now w) = dropKey id (intervals w)).
Proof.
  intro Hs. unfold elapsedEffect.
  destruct (sameDeps prev (hooks w)); [repeat split; left; reflexivity |].
  destruct (status prev) eqn:Ep, (startTime prev), (timeIntervalRef w) eqn:Er;
    cbn; destruct (status (hooks w)) eqn:Es, (startTime (hooks w)) eqn:Et;
    cbn; rewrite ?Er; try (contradiction Hs; reflexivity);
    repeat split;
    solve [left; reflexivity | right; eexists; repeat split; reflexivity].
Qed.

(** A render that enters [Running] from another status runs the body of the
    effect: the elapsed time is computed and its interval registered. *)
Lemma elapsedEffect_enter_running (prev : Hooks) (now : Z) (w : World) (st : Date) :
  status prev <> Running ->
  status (hooks w) = Running -> startTime (hooks w) = Some st ->
  elapsedEffect prev now w
  = setTimeIntervalRef (Some (nextIntervalId w))
      (snd (setInterval (CallUpdateElapsed st) (updateElapsed st now w))).
Proof.
  intros Hp Hs Ht. unfold elapsedEffect.
  assert (Hd : sameDeps prev (hooks w) = false).
  { unfold sameDeps. rewrite Hs.
    destruct (status_eqb (status prev) Running) eqn:E; [| reflexivity].
    apply status_eqb_eq in E. contradiction. }
  rewrite Hd.
  destruct (status prev) eqn:Ep; try (contradiction Hp; reflexivity);
    cbn; rewrite Hs, Ht; reflexivity.
Qed.

(** What the [catch] block of [startSession] and the render after it do. *)
Lemma start_rejected_step
    (w : World) (id : nat) (st : Date) (message : option string) (now : Z) (d : draws) :
  findKey id (pending w) = Some (AfterStartCharge st) ->
  hooks (step w (CallSettles id (Api.Rejected message) now d))
  = {| status := Error;
       error := Some match message with
                     | Some m => m
                     | None => "Failed to start session"%string
                     end;
       transactionId := transactionId (hooks w);
       chargerState := chargerState (hooks w);
       startTime := startTime (hooks w);
       elapsedSeconds := elapsedSeconds (hooks w);
       energyDispensed := energyDispensed (hooks w) |} /\
  network (step w (CallSettles id (Api.Rejected message) now d)) = network w /\
  nextIntervalId (step w (CallSettles id (Api.Rejected message) now d)) = nextIntervalId w /\
  intervalRef (step w (CallSettles id (Api.Rejected message) now d)) = intervalRef w /\
  pending (step w (CallSettles id (Api.Rejected message) now d)) = dropKey id (pending w).
Proof.
  intro Hf. unfold step. cbn [handle eventTime]. rewrite Hf.
  cbn [startSessionResume].
  set (w' := withHooks _ _).
  assert (Hs : status (hooks w') <> Running) by (subst w'; cbn; discriminate).
  destruct (elapsedEffect_not_running (hooks w) now w' Hs) as (Eh & En & _ & _).
  destruct (elapsedEffect_frame (hooks w) now w')
    as (_ & _ & _ & _ & _ & _ & Ep & _ & Enet & _ & Ei).
  rewrite Eh, En, Enet, Ei, Ep. subst w'.
  destruct (hooks w); repeat split; reflexivity.
Qed.

(** X7. When the start call is rejected the machine goes to error with the
    thrown message (or the fallback text when there is none) and nothing
    else of the session is touched: identifier, start time, charger state
    and energy stay as they were, no request is sent and no interval is
    registered. *)
Theorem start_failure_starts_nothing
    (w : World) (id : nat) (st : Date) (message : option string) (now : Z) (d : draws) :
  findKey id (pending w) = Some (AfterStartCharge st) ->
  hooks (step w (CallSettles id (Api.Rejected message) now d))
  = {| status := Error;
       error := Some match message with
                     | Some m => m
                     | None => "Failed to start session"%string
                     end;
       transactionId := transactionId (hooks w);
       chargerState := chargerState (hooks w);
       startTime := startTime (hooks w);
       elapsedSeconds := elapsedSeconds (hooks w);
       energyDispensed := energyDispensed (hooks w) |} /\
  network (step w (CallSettles id (Api.Rejected message) now d)) = network w /\
  nextIntervalId (step w (CallSettles id (Api.Rejected message) now d)) = nextIntervalId w /\
  intervalRef (step w (CallSettles id (Api.Rejected message) now d)) = intervalRef w /\
  pending (step w (CallSettles id (Api.Rejected message) now d)) = dropKey id (pending w).
Proof. exact (start_rejected_step w id st message now d). Qed.

Lemma start_failure_starts_nothing_witness :
  findKey 0 (pending (step initialWorld (ClickStart 1000)))
  = Some (AfterStartCharge {| getTime := 1000; objectId := 0 |}) /\
  network (step (step initialWorld (ClickStart 1000))
                (CallSettles 0 (Api.Rejected None) 1100 noDraw))
  = network (step initialWorld (ClickStart 1000)) /\
  nextIntervalId (step (step initialWorld (ClickStart 1000))
                       (CallSettles 0 (Api.Rejected None) 1100 noDraw))
  = nextIntervalId (step initialWorld (ClickStart 1000)).
Proof.
  split; [reflexivity |].
  destruct (start_failure_starts_nothing (step initialWorld (ClickStart 1000)) 0
              {| getTime := 1000; objectId := 0 |} None 1100 noDraw eq_refl)
    as (_ & Hnet & Hn & _).
  split; assumption.
Defined.

(** What the continuation of [startSession] and the render after it do
    when the call resolved. *)
Lemma start_resolved_step
    (w : World) (id : nat) (st : Date) (tid : string) (now : Z) (d : draws) :
  findKey id (pending w) = Some (AfterStartCharge st) ->
  status (hooks w) <> Running ->
  truthy tid = true ->
  hooks (step w (CallSettles id (Api.Resolved tid) now d))
  = {| status := Running;
       error := error (hooks w);
       transactionId := Some tid;
       chargerState := generateNextState (chargerState (hooks w)) d;
       startTime := Some st;
       elapsedSeconds := ((now - getTime st) / 1000)%Z;
       energyDispensed :=
         0 + energyIncrement (powerW (generateNextState (chargerState (hooks w)) d)) |} /\
  network (step w (CallSettles id (Api.Resolved tid) now d))
  = network w
    ++ [Api.sendChargeUpdate tid (toPayload (generateNextState (chargerState (hooks w)) d))] /\
  intervalRef (step w (CallSettles id (Api.Resolved tid) now d)) = Some (nextIntervalId w) /\
  timeIntervalRef (step w (CallSettles id (Api.Resolved tid) now d))
  = Some (S (nextIntervalId w)) /\
  intervals (step w (CallSettles id (Api.Resolved tid) now d))
  = (S (nextIntervalId w), CallUpdateElapsed st)
    :: (nextIntervalId w, CallSendUpdate tid) :: intervals w.
Proof.
  intros Hf Hs Htruthy. unfold step. cbn [handle eventTime]. rewrite Hf.
  unfold startSessionResume, sendUpdate. rewrite Htruthy.
  erewrite elapsedEffect_enter_running; [| exact Hs | reflexivity | reflexivity].
  repeat split; reflexivity.
Qed.

(** X8. When the start call resolves with a non-empty identifier (and the
    machine is not already running) the session is running at once and the
    first sample is taken without delay: identifier and start time are
    stored, the energy is reset and then holds the first increment, the
    charger state advances one tick from whatever it was (it is not reset),
    exactly one update request is sent, and both intervals are registered. *)
Theorem start_success_first_sample
    (w : World) (id : nat) (st : Date) (tid : string) (now : Z) (d : draws) :
  findKey id (pending w) = Some (AfterStartCharge st) ->
  status (hooks w) <> Running ->
  truthy tid = true ->
  hooks (step w (CallSettles id (Api.Resolved tid) now d))
  = {| status := Running;
       error := error (hooks w);
       transactionId := Some tid;
       chargerState := generateNextState (chargerState (hooks w)) d;
       startTime := Some st;
       elapsedSeconds := ((now - getTime st) / 1000)%Z;
       energyDispensed :=
         0 + energyIncrement (powerW (generateNextState (chargerState (hooks w)) d)) |} /\
  network (step w (CallSettles id (Api.Resolved tid) now d))
  = network w
    ++ [Api.sendChargeUpdate tid (toPayload (generateNextState (chargerState (hooks w)) d))] /\
  intervalRef (step w (CallSettles id (Api.Resolved tid) now d)) = Some (nextIntervalId w) /\
  timeIntervalRef (step w (CallSettles id (Api.Resolved tid) now d))
  = Some (S (nextIntervalId w)) /\
  intervals (step w (CallSettles id (Api.Resolved tid) now d))
  = (S (nextIntervalId w), CallUpdateElapsed st)
    :: (nextIntervalId w, CallSendUpdate tid) :: intervals w.
Proof. exact (start_resolved_step w id st tid now d). Qed.

Lemma start_success_first_sample_witness :
  (findKey 0 (pending (step initialWorld (ClickStart 1000)))
   = Some (AfterStartCharge {| getTime := 1000; objectId := 0 |}) /\
   status (hooks (step initialWorld (ClickStart 1000))) <> Running /\
   truthy "tx1" = true) /\
  network (step (step initialWorld (ClickStart 1000))
                (CallSettles 0 (Api.Resolved "tx1") 1500 halfDraw))
  = network (step initialWorld (ClickStart 1000))
    ++ [Api.sendChargeUpdate "tx1"
          (toPayload (generateNextState
                        (chargerState (hooks (step initialWorld (ClickStart 1000))))
                        halfDraw))].
Proof.
  assert (Hs : status (hooks (step initialWorld (ClickStart 1000))) <> Running)
    by (cbn; discriminate).
  split; [repeat split; exact Hs |].
  exact (proj1 (proj2 (start_success_first_sample (step initialWorld (ClickStart 1000)) 0
                         {| getTime := 1000; objectId := 0 |} "tx1" 1500 halfDraw
                         eq_refl Hs eq_refl))).
Defined.

(** ** Stopping *)

(** X9. A stop request in any status other than running does nothing: the
    END SESSION button is disabled, so no state changes and no call is
    made. *)
Theorem stop_when_not_running_is_ignored (w : World) (now : Z) :
  status (hooks w) <> Running ->
  step w (ClickStop now) = w.
Proof.
  intro Hs. unfold step. cbn [handle eventTime].
  assert (Hc : stopButtonClickable (hooks w) = false).
  { unfold stopButtonClickable, isRunning.
    destruct (status_eqb (status (hooks w)) Running) eqn:E; [| reflexivity].
    apply status_eqb_eq in E. contradiction. }
  rewrite Hc. apply elapsedEffect_same.
Qed.

Lemma stop_when_not_running_is_ignored_witness :
  status (hooks startFailedWorld) <> Running /\
  step startFailedWorld (ClickStop 5000) = startFailedWorld.
Proof.
  assert (Hs : status (hooks startFailedWorld) <> Running) by (vm_compute; discriminate).
  split; [exact Hs |].
  exact (stop_when_not_running_is_ignored startFailedWorld 5000 Hs).
Defined.

(** ** Ticks *)

Lemma sameDeps_of_eq (a b : Hooks) :
  status a = status b -> startTime a = startTime b -> sameDeps a b = true.
Proof. intros Es Et. unfold sameDeps. rewrite Es, Et. apply sameDeps_refl. Qed.

Lemma elapsedEffect_unchanged_deps (prev : Hooks) (now : Z) (w : World) :
  status prev = status (hooks w) -> startTime prev = startTime (hooks w) ->
  elapsedEffect prev now w = w.
Proof.
  intros Es Et. unfold elapsedEffect. rewrite (sameDeps_of_eq _ _ Es Et). reflexivity.
Qed.

Lemma sendUpdate_frame (tid : string) (d : draws) (w : World) :
  status (hooks (sendUpdate tid d w)) = status (hooks w) /\
  error (hooks (sendUpdate tid d w)) = error (hooks w) /\
  transactionId (hooks (sendUpdate tid d w)) = transactionId (hooks w) /\
  startTime (hooks (sendUpdate tid d w)) = startTime (hooks w) /\
  elapsedSeconds (hooks (sendUpdate tid d w)) = elapsedSeconds (hooks w) /\
  intervals (sendUpdate tid d w) = intervals w /\
  intervalRef (sendUpdate tid d w) = intervalRef w /\
  timeIntervalRef (sendUpdate tid d w) = timeIntervalRef w /\
  nextIntervalId (sendUpdate tid d w) = nextIntervalId w.
Proof. unfold sendUpdate. destruct (truthy tid); repeat split; reflexivity. Qed.

Lemma sendUpdate_network (tid : string) (d : draws) (w : World) :
  network (sendUpdate tid d w)
  = network w
    ++ (if truthy tid
        then [Api.sendChargeUpdate tid (toPayload (generateNextState (chargerState (hooks w)) d))]
        else []).
Proof.
  unfold sendUpdate. destruct (truthy tid); cbn; [reflexivity | symmetry; apply app_nil_r].
Qed.

(** A firing of a tick interval is one run of [sendUpdate], whatever the
    status. *)
Lemma tick_step (w : World) (id : nat) (tid : string) (now : Z) (d : draws) :
  findKey id (intervals w) = Some (CallSendUpdate tid) ->
  step w (IntervalFires id now d) = sendUpdate tid d w.
Proof.
  intro Hf. unfold step. cbn [handle eventTime]. rewrite Hf.
  destruct (sendUpdate_frame tid d w) as (Es & _ & _ & Et & _).
  apply elapsedEffect_unchanged_deps; symmetry; assumption.
Qed.

Lemma elapsed_step (w : World) (id : nat) (st : Date) (now : Z) (d : draws) :
  findKey id (intervals w) = Some (CallUpdateElapsed st) ->
  step w (IntervalFires id now d) = updateElapsed st now w.
Proof.
  intro Hf. unfold step. cbn [handle eventTime]. rewrite Hf.
  apply elapsedEffect_unchanged_deps; reflexivity.
Qed.

Lemma idle_interval_step (w : World) (id : nat) (now : Z) (d : draws) :
  findKey id (intervals w) = None ->
  step w (IntervalFires id now d) = w.
Proof.
  intro Hf. unfold step. cbn [handle eventTime]. rewrite Hf. apply elapsedEffect_same.
Qed.

(** X10. The firing of an interval never changes the status, the error,
    the identifier or the start time of the session, and it neither
    registers nor cancels an interval: a tick only generates, integrates,
    sends and updates the elapsed time. *)
Theorem interval_keeps_session (w : World) (id : nat) (now : Z) (d : draws) :
  status (hooks (step w (IntervalFires id now d))) = status (hooks w) /\
  error (hooks (step w (IntervalFires id now d))) = error (hooks w) /\
  transactionId (hooks (step w (IntervalFires id now d))) = transactionId (hooks w) /\
  startTime (hooks (step w (IntervalFires id now d))) = startTime (hooks w) /\
  intervals (step w (IntervalFires id now d)) = intervals w /\
  intervalRef (step w (IntervalFires id now d)) = intervalRef w /\
  timeIntervalRef (step w (IntervalFires id now d)) = timeIntervalRef w.
Proof.
  destruct (findKey id (intervals w)) as [[tid | st] |] eqn:Hf.
  - rewrite (tick_step w id tid now d Hf).
    destruct (sendUpdate_frame tid d w) as (H1 & H2 & H3 & H4 & _ & H5 & H6 & H7 & _).
    repeat split; assumption.
  - rewrite (elapsed_step w id st now d Hf). repeat split; reflexivity.
  - rewrite (idle_interval_step w id now d Hf). repeat split; reflexivity.
Qed.

(** X11. When the elapsed-time interval fires, [elapsedSeconds] becomes the
    number of whole seconds between the start time and now, whatever it was
    before: it is recomputed, not accumulated. *)
Theorem elapsed_is_whole_seconds (w : World) (id : nat) (st : Date) (now : Z) (d : draws) :
  findKey id (intervals w) = Some (CallUpdateElapsed st) ->
  (1000 * elapsedSeconds (hooks (step w (IntervalFires id now d))) <= now - getTime st
   /\ now - getTime st
      < 1000 * elapsedSeconds (hooks (step w (IntervalFires id now d))) + 1000)%Z.
Proof.
  intro Hf. rewrite (elapsed_step w id st now d Hf).
  change (elapsedSeconds (hooks (updateElapsed st now w)))
    with ((now - getTime st) / 1000)%Z.
  pose proof (Z.div_mod (now - getTime st) 1000 ltac:(lia)) as Hdm.
  pose proof (Z.mod_pos_bound (now - getTime st) 1000 ltac:(lia)) as Hb.
  lia.
Qed.

Lemma elapsed_is_whole_seconds_witness :
  findKey 1 (intervals runningWorld)
  = Some (CallUpdateElapsed {| getTime := 1000; objectId := 0 |}) /\
  (1000 * elapsedSeconds (hooks (step runningWorld (IntervalFires 1 4700 noDraw)))
   <= 4700 - 1000
   /\ 4700 - 1000
      < 1000 * elapsedSeconds (hooks (step runningWorld (IntervalFires 1 4700 noDraw)))
        + 1000)%Z.
Proof.
  split; [reflexivity |].
  exact (elapsed_is_whole_seconds runningWorld 1 {| getTime := 1000; objectId := 0 |}
           4700 noDraw eq_refl).
Defined.

(** ** Requests *)

Lemma startSession_network (now : Z) (w : World) :
  network (startSession now w)
  = network w ++ [Api.startCharge now (toFixed2 INITIAL_SOC)].
Proof. reflexivity. Qed.

Lemma stopSession_network (w : World) :
  network (stopSession w) = network w \/
  exists tid, network (stopSession w) = network w ++ [Api.endCharge tid].
Proof.
  unfold stopSession.
  destruct (transactionId (hooks w)) as [tid |]; [destruct (truthy tid) |];
    cbn; destruct (intervalRef w); cbn; destruct (timeIntervalRef w); cbn;
    solve [left; reflexivity | right; eexists; reflexivity].
Qed.

Lemma startSessionResume_network (st : Date) (tid : string) (d : draws) (w : World) :
  network (startSessionResume st (Api.Resolved tid) d w)
  = network w
    ++ (if truthy tid
        then [Api.sendChargeUpdate tid (toPayload (generateNextState (chargerState (hooks w)) d))]
        else []).
Proof.
  unfold startSessionResume, sendUpdate.
  destruct (truthy tid); cbn; [reflexivity | symmetry; apply app_nil_r].
Qed.

(** X12. Every event sends at most one request, never removes one from
    what was sent, and sends only its own kind: a start click only a start
    request, a stop click only an end request, an interval and a settling
    call only an update. *)
Theorem one_request_per_event (w : World) (e : event) :
  exists sent : list Api.request,
    network (step w e) = network w ++ sent /\
    (List.length sent <= 1)%nat /\
    forall r, In r sent -> mayRequest e r.
Proof.
  unfold step.
  destruct (elapsedEffect_frame (hooks w) (eventTime e) (handle e w))
    as (_ & _ & _ & _ & _ & _ & _ & _ & En & _).
  rewrite En. clear En.
  destruct e as [now | now | id now d | id res now d]; cbn [handle].
  - destruct (startButtonClickable (hooks w)).
    + exists [Api.startCharge now (toFixed2 INITIAL_SOC)]. rewrite startSession_network.
      split; [reflexivity |]. split; [cbn; lia |].
      intros r [<- | []]. exact I.
    + exists []. rewrite app_nil_r. split; [reflexivity |]. split; [cbn; lia |].
      intros r [].
  - destruct (stopButtonClickable (hooks w)).
    + destruct (stopSession_network w) as [E | [tid E]]; rewrite E.
      * exists []. rewrite app_nil_r. split; [reflexivity |]. split; [cbn; lia |].
        intros r [].
      * exists [Api.endCharge tid]. split; [reflexivity |]. split; [cbn; lia |].
        intros r [<- | []]. exact I.
    + exists []. rewrite app_nil_r. split; [reflexivity |]. split; [cbn; lia |].
      intros r [].
  - destruct (findKey id (intervals w)) as [[tid | st] |].
    + rewrite sendUpdate_network. eexists. split; [reflexivity |].
      destruct (truthy tid); (split; [cbn; lia |]); intros r Hin.
      * destruct Hin as [<- | []]. exact I.
      * destruct Hin.
    + exists []. cbn. rewrite app_nil_r. split; [reflexivity |]. split; [cbn; lia |].
      intros r [].
    + exists []. rewrite app_nil_r. split; [reflexivity |]. split; [cbn; lia |].
      intros r [].
  - destruct (findKey id (pending w)) as [[st | |] |].
    + destruct res as [tid | msg].
      * rewrite startSessionResume_network. cbn [network hooks chargerState].
        eexists. split; [reflexivity |].
        destruct (truthy tid); (split; [cbn; lia |]); intros r Hin.
        -- destruct Hin as [<- | []]. exact I.
        -- destruct Hin.
      * exists []. cbn. rewrite app_nil_r. split; [reflexivity |]. split; [cbn; lia |].
        intros r [].
    + exists []. destruct res; cbn; rewrite app_nil_r;
        (split; [reflexivity |]); (split; [cbn; lia |]); intros ? [].
    + exists []. destruct res; cbn; rewrite app_nil_r;
        (split; [reflexivity |]); (split; [cbn; lia |]); intros ? [].
    + exists []. rewrite app_nil_r. split; [reflexivity |]. split; [cbn; lia |].
      intros r [].
Qed.

(** ** Cancelling the schedule *)

Lemma findKey_dropKey {A : Type} (k j : nat) (l : list (nat * A)) :
  findKey k (dropKey j l) = if Nat.eqb j k then None else findKey k l.
Proof.
  induction l as [| [i a] l IH]; [destruct (Nat.eqb j k); reflexivity |].
  unfold dropKey in *. cbn [filter fst findKey].
  destruct (Nat.eqb i j) eqn:Eij; cbn [negb].
  - apply Nat.eqb_eq in Eij. subst i. rewrite IH.
    destruct (Nat.eqb j k); reflexivity.
  - cbn [findKey]. rewrite IH.
    destruct (Nat.eqb i k) eqn:Eik; [| reflexivity].
    apply Nat.eqb_eq in Eik. subst i. rewrite Nat.eqb_sym, Eij. reflexivity.
Qed.

Lemma dropKey_idempotent {A : Type} (k : nat) (l : list (nat * A)) :
  dropKey k (dropKey k l) = dropKey k l.
Proof.
  unfold dropKey. induction l as [| [i a] l IH]; [reflexivity |].
  cbn [filter fst]. destruct (Nat.eqb i k) eqn:E; cbn [negb]; [exact IH |].
  cbn [filter fst]. rewrite E. cbn [negb]. rewrite IH. reflexivity.
Qed.

Lemma stopSession_refs (w : World) :
  intervalRef (stopSession w) = None /\
  timeIntervalRef (stopSession w) = None /\
  status (hooks (stopSession w)) <> Running /\
  intervals (stopSession w)
  = match timeIntervalRef w with
    | Some j => dropKey j
    | None => fun l => l
    end (match intervalRef w with
         | Some i => dropKey i (intervals w)
         | None => intervals w
         end).
Proof.
  unfold stopSession.
  destruct (transactionId (hooks w)) as [tid |]; [destruct (truthy tid) |];
    cbn; destruct (intervalRef w) eqn:Ei; cbn;
    destruct (timeIntervalRef w) eqn:Et; cbn; rewrite ?Ei, ?Et;
    repeat split; try reflexivity; discriminate.
Qed.

(** X13. A stop request on a running session cancels the schedule at once:
    both interval handles are cleared and forgotten, and a later firing of
    either of them changes nothing. Clearing a handle twice is the same as
    clearing it once. *)
Theorem stop_cancels_schedule (w : World) (now : Z) (id : nat) (now' : Z) (d : draws) :
  status (hooks w) = Running ->
  intervalRef w = Some id \/ timeIntervalRef w = Some id ->
  intervalRef (step w (ClickStop now)) = None /\
  timeIntervalRef (step w (ClickStop now)) = None /\
  findKey id (intervals (step w (ClickStop now))) = None /\
  step (step w (ClickStop now)) (IntervalFires id now' d) = step w (ClickStop now) /\
  clearInterval id (clearInterval id w) = clearInterval id w.
Proof.
  intros Hst Hid.
  assert (Hstep : step w (ClickStop now) = elapsedEffect (hooks w) now (stopSession w))
    by (unfold step; rewrite (click_stop_running w now Hst); reflexivity).
  destruct (stopSession_refs w) as (Ei & Et & Hs & Eint).
  destruct (elapsedEffect_not_running (hooks w) now (stopSession w) Hs)
    as (_ & _ & Et' & Hint).
  destruct (elapsedEffect_frame (hooks w) now (stopSession w))
    as (_ & _ & _ & _ & _ & _ & _ & _ & _ & _ & Ei').
  assert (Hintervals : intervals (step w (ClickStop now)) = intervals (stopSession w)).
  { rewrite Hstep. destruct Hint as [H | (j & Hj & _)]; [exact H |].
    rewrite Et in Hj. discriminate Hj. }
  assert (Hnone : findKey id (intervals (step w (ClickStop now))) = None).
  { rewrite Hintervals, Eint.
    destruct Hid as [Hid | Hid]; rewrite Hid.
    - destruct (timeIntervalRef w) as [j |].
      + rewrite findKey_dropKey. destruct (Nat.eqb j id); [reflexivity |].
        rewrite findKey_dropKey, Nat.eqb_refl. reflexivity.
      + rewrite findKey_dropKey, Nat.eqb_refl. reflexivity.
    - rewrite findKey_dropKey, Nat.eqb_refl. reflexivity. }
  split; [rewrite Hstep, Ei'; exact Ei |].
  split; [rewrite Hstep, Et'; exact Et |].
  split; [exact Hnone |].
  split; [apply idle_interval_step; exact Hnone |].
  unfold clearInterval.
  cbn [hooks intervalRef timeIntervalRef intervals nextIntervalId pending nextCallId
       nextObjectId network console].
  rewrite dropKey_idempotent. reflexivity.
Qed.

Lemma stop_cancels_schedule_witness :
  (status (hooks runningWorld) = Running /\ intervalRef runningWorld = Some 0%nat) /\
  findKey 0 (intervals (step runningWorld (ClickStop 3000))) = None /\
  step (step runningWorld (ClickStop 3000)) (IntervalFires 0 4000 halfDraw)
  = step runningWorld (ClickStop 3000).
Proof.
  split; [split; reflexivity |].
  destruct (stop_cancels_schedule runningWorld 3000 0 4000 halfDraw eq_refl
              (or_introl eq_refl)) as (_ & _ & H1 & H2 & _).
  split; assumption.
Defined.

(** ** A session of ticks *)

Lemma ticks_run (id : nat) (tid : string) (ticks : list (Z * draws)) :
  forall w : World,
    findKey id (intervals w) = Some (CallSendUpdate tid) ->
    truthy tid = true ->
    hooks (run w (tickEvents id ticks))
    = {| status := status (hooks w);
         error := error (hooks w);
         transactionId := transactionId (hooks w);
         chargerState := generateMany (chargerState (hooks w)) (map snd ticks);
         startTime := startTime (hooks w);
         elapsedSeconds := elapsedSeconds (hooks w);
         energyDispensed :=
           integrateMany INTERVAL_SECONDS (energyDispensed (hooks w))
             (map powerW (generateTrace (chargerState (hooks w)) (map snd ticks))) |} /\
    network (run w (tickEvents id ticks))
    = network w
      ++ map (fun s => Api.sendChargeUpdate tid (toPayload s))
             (generateTrace (chargerState (hooks w)) (map snd ticks)).
Proof.
  unfold run, integrateMany.
  induction ticks as [| [now d] ticks IH]; intros w Hf Htruthy.
  - cbn. rewrite app_nil_r. destruct (hooks w); split; reflexivity.
  - cbn [tickEvents map fold_left fst snd generateMany generateTrace].
    fold (tickEvents id ticks).
    rewrite (tick_step w id tid now d Hf).
    destruct (sendUpdate_frame tid d w) as (E1 & E2 & E3 & E4 & E5 & E6 & _).
    assert (Hf' : findKey id (intervals (sendUpdate tid d w)) = Some (CallSendUpdate tid))
      by (rewrite E6; exact Hf).
    destruct (IH (sendUpdate tid d w) Hf' Htruthy) as [Hh Hn].
    rewrite Hh, Hn, E1, E2, E3, E4, E5, sendUpdate_chargerState, sendUpdate_energy,
      sendUpdate_network, Htruthy.
    split; [reflexivity |].
    rewrite <- app_assoc. reflexivity.
Qed.

(** X14. A session that starts and then ticks: after the start call
    resolved and the session's interval fired for a list of draws, the
    charger state is the generator iterated over the first sample's draws
    and those, the energy is the integral from zero of the generated powers,
    and what was sent is exactly one update per generated state, in order,
    all under the session's identifier. *)
Theorem session_of_ticks
    (w : World) (id : nat) (st : Date) (tid : string) (now : Z) (d : draws)
    (ticks : list (Z * draws)) :
  findKey id (pending w) = Some (AfterStartCharge st) ->
  status (hooks w) <> Running ->
  truthy tid = true ->
  status (hooks (run (step w (CallSettles id (Api.Resolved tid) now d))
                     (tickEvents (nextIntervalId w) ticks))) = Running /\
  transactionId (hooks (run (step w (CallSettles id (Api.Resolved tid) now d))
                            (tickEvents (nextIntervalId w) ticks))) = Some tid /\
  chargerState (hooks (run (step w (CallSettles id (Api.Resolved tid) now d))
                           (tickEvents (nextIntervalId w) ticks)))
  = generateMany (chargerState (hooks w)) (d :: map snd ticks) /\
  energyDispensed (hooks (run (step w (CallSettles id (Api.Resolved tid) now d))
                              (tickEvents (nextIntervalId w) ticks)))
  = integrateMany INTERVAL_SECONDS 0
      (map powerW (generateTrace (chargerState (hooks w)) (d :: map snd ticks))) /\
  network (run (step w (CallSettles id (Api.Resolved tid) now d))
               (tickEvents (nextIntervalId w) ticks))
  = network w
    ++ map (fun s => Api.sendChargeUpdate tid (toPayload s))
           (generateTrace (chargerState (hooks w)) (d :: map snd ticks)).
Proof.
  intros Hf Hs Htruthy.
  destruct (start_resolved_step w id st tid now d Hf Hs Htruthy)
    as (Hh & Hn & _ & _ & Hi).
  assert (Hfind : findKey (nextIntervalId w)
                    (intervals (step w (CallSettles id (Api.Resolved tid) now d)))
                  = Some (CallSendUpdate tid)).
  { rewrite Hi. cbn [findKey].
    destruct (Nat.eqb (S (nextIntervalId w)) (nextIntervalId w)) eqn:E;
      [apply Nat.eqb_eq in E; lia |].
    rewrite Nat.eqb_refl. reflexivity. }
  destruct (ticks_run (nextIntervalId w) tid ticks _ Hfind Htruthy) as [Hh' Hn'].
  rewrite Hh', Hn', Hh, Hn. cbn [status transactionId chargerState energyDispensed].
  repeat split; try reflexivity.
  cbn [generateTrace map]. rewrite <- app_assoc. reflexivity.
Qed.

Lemma session_of_ticks_witness :
  (findKey 0 (pending (step initialWorld (ClickStart 1000)))
   = Some (AfterStartCharge {| getTime := 1000; objectId := 0 |}) /\
   status (hooks (step initialWorld (ClickStart 1000))) <> Running /\
   truthy "tx1" = true) /\
  chargerState (hooks (run (step (step initialWorld (ClickStart 1000))
                                 (CallSettles 0 (Api.Resolved "tx1") 1500 halfDraw))
                           (tickEvents (nextIntervalId (step initialWorld (ClickStart 1000)))
                                       [(2500%Z, noDraw); (3500%Z, halfDraw)])))
  = generateMany (chargerState (hooks (step initialWorld (ClickStart 1000))))
                 (halfDraw :: map snd [(2500%Z, noDraw); (3500%Z, halfDraw)]).
Proof.
  assert (Hs : status (hooks (step initialWorld (ClickStart 1000))) <> Running)
    by (cbn; discriminate).
  split; [repeat split; exact Hs |].
  exact (proj1 (proj2 (proj2 (session_of_ticks (step initialWorld (ClickStart 1000)) 0
                         {| getTime := 1000; objectId := 0 |} "tx1" 1500 halfDraw
                         [(2500%Z, noDraw); (3500%Z, halfDraw)]
                         eq_refl Hs eq_refl)))).
Defined.

(** ** Invariants of the reachable states *)

Lemma sameDeps_status (a b : Hooks) : sameDeps a b = true -> status a = status b.
Proof.
  unfold sameDeps. intro H. apply andb_prop in H. destruct H as [H _].
  apply status_eqb_eq. exact H.
Qed.

Lemma In_dropKey {A : Type} (k : nat) (x : nat * A) (l : list (nat * A)) :
  In x (dropKey k l) <-> In x l /\ fst x <> k.
Proof.
  unfold dropKey. rewrite filter_In. split; intros [H1 H2]; split; try exact H1.
  - intro E. rewrite E, Nat.eqb_refl in H2. discriminate H2.
  - destruct (Nat.eqb (fst x) k) eqn:E; [apply Nat.eqb_eq in E; contradiction | reflexivity].
Qed.

(** The render keeps the elapsed-time intervals owned, provided the handler
    left only intervals that the previous render owned. *)
Lemma elapsedEffect_owned (prev : Hooks) (now : Z) (w : World) :
  (status prev = Running -> startTime prev <> None) ->
  (forall id st,
      In (id, CallUpdateElapsed st) (intervals w) ->
      status prev = Running /\ timeIntervalRef w = Some id) ->
  elapsedTimersOwned (elapsedEffect prev now w).
Proof.
  intros Hstart Hown. unfold elapsedEffect.
  destruct (sameDeps prev (hooks w)) eqn:Hd.
  - intros id st Hin. destruct (Hown id st Hin) as [Hs Hr].
    split; [rewrite <- (sameDeps_status _ _ Hd); exact Hs | exact Hr].
  - set (w1 := if match status prev, startTime prev with
                  | Running, Some _ => true
                  | _, _ => false
                  end
               then match timeIntervalRef w with
                    | Some id => clearInterval id w
                    | None => w
                    end
               else w).
    assert (Hnone : forall id st, ~ In (id, CallUpdateElapsed st) (intervals w1)).
    { intros id st Hin. subst w1.
      destruct (status prev) eqn:Ep;
        try (destruct (Hown id st Hin) as [Hs _]; discriminate Hs).
      destruct (startTime prev) eqn:Et; [| apply Hstart; reflexivity].
      destruct (timeIntervalRef w) as [j |] eqn:Er.
      - cbn in Hin. apply In_dropKey in Hin. destruct Hin as [Hin Hne].
        destruct (Hown id st Hin) as [_ Hr]. rewrite ?Er in Hr.
        injection Hr as ->. apply Hne. reflexivity.
      - destruct (Hown id st Hin) as [_ Hr]. rewrite ?Er in Hr. discriminate Hr. }
    assert (Hh : hooks w1 = hooks w).
    { subst w1. destruct (status prev), (startTime prev), (timeIntervalRef w); reflexivity. }
    rewrite Hh.
    destruct (status (hooks w)) eqn:Es;
      try (intros id st Hin; exfalso; exact (Hnone id st Hin)).
    destruct (startTime (hooks w)) as [st0 |] eqn:Et;
      [| intros id st Hin; exfalso; exact (Hnone id st Hin)].
    intros id st Hin. cbn in Hin. destruct Hin as [Hin | Hin].
    + injection Hin as <- <-. cbn. rewrite Hh, Es. split; reflexivity.
    + exfalso. exact (Hnone id st Hin).
Qed.

Lemma startSessionResume_intervals (st : Date) (tid : string) (d : draws) (w : World) :
  intervals (startSessionResume st (Api.Resolved tid) d w)
  = (nextIntervalId w, CallSendUpdate tid) :: intervals w /\
  timeIntervalRef (startSessionResume st (Api.Resolved tid) d w) = timeIntervalRef w.
Proof. unfold startSessionResume, sendUpdate. destruct (truthy tid); split; reflexivity. Qed.

(** No handler registers an elapsed-time interval, and the only one that
    writes [timeIntervalRef] clears the interval it held. *)
Lemma handle_owned (e : event) (w : World) :
  elapsedTimersOwned w ->
  forall id st,
    In (id, CallUpdateElapsed st) (intervals (handle e w)) ->
    status (hooks w) = Running /\ timeIntervalRef (handle e w) = Some id.
Proof.
  intros Hown id st.
  destruct e as [now | now | j now d | j res now d]; cbn [handle].
  - destruct (startButtonClickable (hooks w)); intro Hin; exact (Hown id st Hin).
  - destruct (stopButtonClickable (hooks w)); [| intro Hin; exact (Hown id st Hin)].
    destruct (stopSession_refs w) as (_ & _ & _ & Eint). rewrite Eint. intro Hin.
    exfalso.
    destruct (timeIntervalRef w) as [t |] eqn:Et.
    + apply In_dropKey in Hin. destruct Hin as [Hin Hne].
      assert (Hin' : In (id, CallUpdateElapsed st) (intervals w)).
      { destruct (intervalRef w); [apply In_dropKey in Hin; tauto | exact Hin]. }
      destruct (Hown id st Hin') as [_ Hr]. rewrite ?Et in Hr.
      injection Hr as ->. apply Hne. reflexivity.
    + assert (Hin' : In (id, CallUpdateElapsed st) (intervals w)).
      { destruct (intervalRef w); [apply In_dropKey in Hin; tauto | exact Hin]. }
      destruct (Hown id st Hin') as [_ Hr]. rewrite ?Et in Hr. discriminate Hr.
  - destruct (findKey j (intervals w)) as [[tid | st'] |].
    + destruct (sendUpdate_frame tid d w) as (_ & _ & _ & _ & _ & Ei & _ & Er & _).
      rewrite Ei, Er. intro Hin. exact (Hown id st Hin).
    + intro Hin. exact (Hown id st Hin).
    + intro Hin. exact (Hown id st Hin).
  - destruct (findKey j (pending w)) as [[st' | |] |].
    + destruct res as [tid | msg].
      * destruct (startSessionResume_intervals st' tid d
                    (mkWorld (hooks w) (intervalRef w) (timeIntervalRef w) (intervals w)
                       (nextIntervalId w) (dropKey j (pending w)) (nextCallId w)
                       (nextObjectId w) (network w) (console w))) as [Ei Er].
        rewrite Ei, Er. cbn [intervals timeIntervalRef nextIntervalId].
        intros [Hin | Hin]; [discriminate Hin |].
        exact (Hown id st Hin).
      * intro Hin. exact (Hown id st Hin).
    + destruct res; intro Hin; exact (Hown id st Hin).
    + destruct res; intro Hin; exact (Hown id st Hin).
    + intro Hin. exact (Hown id st Hin).
Qed.

Lemma step_hooks (w : World) (e : event) :
  status (hooks (step w e)) = status (hooks (handle e w)) /\
  transactionId (hooks (step w e)) = transactionId (hooks (handle e w)) /\
  startTime (hooks (step w e)) = startTime (hooks (handle e w)) /\
  pending (step w e) = pending (handle e w) /\
  nextCallId (step w e) = nextCallId (handle e w) /\
  (status (hooks (handle e w)) <> Running ->
   elapsedSeconds (hooks (step w e)) = elapsedSeconds (hooks (handle e w))).
Proof.
  unfold step.
  destruct (elapsedEffect_frame (hooks w) (eventTime e) (handle e w))
    as (E1 & _ & E2 & _ & E3 & _ & E4 & E5 & _).
  repeat split; try assumption. apply elapsedEffect_elapsed.
Qed.

Lemma inFlight_same_calls (id : nat) (k : continuation) (w w' : World) :
  pending w' = pending w -> nextCallId w' = nextCallId w ->
  inFlight id k w -> inFlight id k w'.
Proof. intros Ep En [H1 H2]. unfold inFlight. rewrite Ep, En. split; assumption. Qed.

Lemma findKey_In {A : Type} (k : nat) (a : A) (l : list (nat * A)) :
  findKey k l = Some a -> In (k, a) l.
Proof.
  induction l as [| [j b] l IH]; [discriminate |].
  cbn [findKey]. destruct (Nat.eqb j k) eqn:E.
  - apply Nat.eqb_eq in E. subst j. intro H. injection H as ->. left. reflexivity.
  - intro H. right. exact (IH H).
Qed.

Lemma startSessionResume_resolved_hooks (st : Date) (tid : string) (d : draws) (w : World) :
  status (hooks (startSessionResume st (Api.Resolved tid) d w)) = Running /\
  transactionId (hooks (startSessionResume st (Api.Resolved tid) d w)) = Some tid /\
  startTime (hooks (startSessionResume st (Api.Resolved tid) d w)) = Some st.
Proof. unfold startSessionResume, sendUpdate. destruct (truthy tid); repeat split; reflexivity. Qed.

Lemma stopSessionResume_hooks (r : Api.outcome) (w : World) :
  status (hooks (stopSessionResume r w)) = Idle /\
  transactionId (hooks (stopSessionResume r w)) = None /\
  startTime (hooks (stopSessionResume r w)) = None /\
  elapsedSeconds (hooks (stopSessionResume r w)) = 0%Z.
Proof. destruct r; repeat split; reflexivity. Qed.

Lemma stopSession_without_id (w : World) :
  truthyId (transactionId (hooks w)) = false ->
  status (hooks (stopSession w)) = Idle /\
  transactionId (hooks (stopSession w)) = None /\
  startTime (hooks (stopSession w)) = None /\
  elapsedSeconds (hooks (stopSession w)) = 0%Z.
Proof.
  unfold truthyId, stopSession. intro H.
  destruct (transactionId (hooks w)) as [tid |]; [rewrite H |];
    cbn; destruct (intervalRef w); cbn; destruct (timeIntervalRef w); cbn;
    repeat split; reflexivity.
Qed.

Lemma stopSession_keeps_id (w : World) (tid : string) :
  transactionId (hooks w) = Some tid -> truthy tid = true ->
  transactionId (hooks (stopSession w)) = Some tid.
Proof.
  intros Hid Htruthy. unfold stopSession. rewrite Hid, Htruthy.
  cbn; destruct (intervalRef w); cbn; destruct (timeIntervalRef w); cbn; exact Hid.
Qed.

Lemma step_unhandled (w : World) (e : event) : handle e w = w -> step w e = w.
Proof. intro H. unfold step. rewrite H. apply elapsedEffect_same. Qed.

Ltac absurd_status :=
  let H := fresh in intro H; discriminate H.

(** One event keeps the invariant. *)
Lemma invariant_step (w : World) (e : event) : invariant w -> invariant (step w e).
Proof.
  intros (I1 & I2 & I3 & I4 & I5).
  assert (Hown : elapsedTimersOwned (step w e)).
  { unfold step. apply elapsedEffect_owned.
    - intro Hr. exact (I1 Hr).
    - apply handle_owned. exact I5. }
  destruct (step_hooks w e) as (Es & Et & Est & Ep & En & Eel).
  destruct e as [now | now | j now d | j res now d].
  - (* start click *)
    cbn [handle] in *. destruct (startButtonClickable (hooks w)) eqn:Hc.
    + unfold invariant. rewrite Es, Et, Est. cbn [startSession newDate] in *.
      cbn [hooks withHooks status setStatus setError callApi] in *.
      split; [absurd_status |]. split; [absurd_status |].
      split; [| split; [absurd_status | exact Hown]].
      intros _. exists (nextCallId w), {| getTime := now; objectId := nextObjectId w |}.
      unfold inFlight. rewrite Ep, En. cbn. rewrite Nat.eqb_refl. split; [reflexivity | lia].
    + rewrite (step_unhandled w (ClickStart now)) by (cbn [handle]; rewrite Hc; reflexivity).
      exact (conj I1 (conj I2 (conj I3 (conj I4 I5)))).
  - (* stop click *)
    cbn [handle] in *. destruct (stopButtonClickable (hooks w)) eqn:Hc.
    + destruct (truthyId (transactionId (hooks w))) eqn:Hid.
      * destruct (transactionId (hooks w)) as [tid |] eqn:Htid; [| discriminate Hid].
        cbn [truthyId] in Hid.
        destruct (stopSession_with_id w tid Htid Hid) as (_ & Hs & Hp & Hn & _).
        pose proof (stopSession_keeps_id w tid Htid Hid) as Hk.
        unfold invariant. rewrite Es, Et, Est, Hs, Hk.
        split; [absurd_status |]. split; [absurd_status |]. split; [absurd_status |].
        split; [| exact Hown].
        intros _. split; [exact Hid |]. exists (nextCallId w).
        unfold inFlight. rewrite Ep, En, Hp, Hn. cbn. rewrite Nat.eqb_refl.
        split; [reflexivity | lia].
      * destruct (stopSession_without_id w Hid) as (Hs & Hk & Hst & Hel).
        unfold invariant. rewrite Es, Et, Est, Hs, Hk, Hst.
        rewrite Eel by (rewrite Hs; discriminate). rewrite Hel.
        split; [absurd_status |]. split; [intros _; repeat split |].
        split; [absurd_status |]. split; [absurd_status | exact Hown].
    + rewrite (step_unhandled w (ClickStop now)) by (cbn [handle]; rewrite Hc; reflexivity).
      exact (conj I1 (conj I2 (conj I3 (conj I4 I5)))).
  - (* an interval fires *)
    assert (Hkeep : forall id k, inFlight id k w -> inFlight id k (step w (IntervalFires j now d)))
      by (intros id k; apply step_keeps_inFlight; reflexivity).
    assert (Hsame : status (hooks (handle (IntervalFires j now d) w)) = status (hooks w) /\
                    transactionId (hooks (handle (IntervalFires j now d) w))
                    = transactionId (hooks w) /\
                    startTime (hooks (handle (IntervalFires j now d) w)) = startTime (hooks w) /\
                    (status (hooks w) = Idle ->
                     elapsedSeconds (hooks (handle (IntervalFires j now d) w))
                     = elapsedSeconds (hooks w))).
    { cbn [handle]. destruct (findKey j (intervals w)) as [[tid | st] |] eqn:Hf.
      - destruct (sendUpdate_frame tid d w) as (H1 & _ & H3 & H4 & H5 & _).
        repeat split; try assumption. intros _. exact H5.
      - repeat split. intro Hidle. apply findKey_In in Hf.
        destruct (I5 j st Hf) as [Hr _]. rewrite Hr in Hidle. discriminate Hidle.
      - repeat split. }
    destruct Hsame as (Hs & Hk & Hst & Hel).
    unfold invariant. rewrite Es, Et, Est, Hs, Hk, Hst.
    split; [exact I1 |]. split; [| split; [| split; [| exact Hown]]].
    + intro Hidle. destruct (I2 Hidle) as (A & B & C). repeat split; try assumption.
      rewrite Eel by (rewrite Hs, Hidle; discriminate). rewrite (Hel Hidle). exact C.
    + intro H. destruct (I3 H) as (id & st & Hin). exists id, st. apply Hkeep. exact Hin.
    + intro H. destruct (I4 H) as (Htruthy & id & Hin). split; [exact Htruthy |].
      exists id. apply Hkeep. exact Hin.
  - (* a call settles *)
    destruct (findKey j (pending w)) as [k |] eqn:Hf.
    2: { rewrite (step_unhandled w (CallSettles j res now d))
           by (cbn [handle]; rewrite Hf; reflexivity).
         exact (conj I1 (conj I2 (conj I3 (conj I4 I5)))). }
    assert (Hkeep : forall id k', k' <> k -> inFlight id k' w ->
                                  inFlight id k' (step w (CallSettles j res now d))).
    { intros id k' Hne Hin. apply step_keeps_inFlight; [| exact Hin].
      cbn [settlesCall]. apply Nat.eqb_neq. intro E. subst j.
      destruct Hin as [Hin _]. rewrite Hf in Hin. injection Hin as ->.
      apply Hne. reflexivity. }
    cbn [handle] in Es, Et, Est, Eel. rewrite Hf in Es, Et, Est, Eel.
    destruct k as [st | |].
    + destruct res as [tid | msg].
      * destruct (startSessionResume_resolved_hooks st tid d
                    (mkWorld (hooks w) (intervalRef w) (timeIntervalRef w) (intervals w)
                       (nextIntervalId w) (dropKey j (pending w)) (nextCallId w)
                       (nextObjectId w) (network w) (console w))) as (Hs & Hk & Hst).
        unfold invariant. rewrite Es, Et, Est, Hs, Hk, Hst.
        split; [intros _; discriminate |].
        split; [absurd_status |]. split; [absurd_status |].
        split; [absurd_status | exact Hown].
      * unfold invariant. rewrite Es. cbn.
        split; [absurd_status |]. split; [absurd_status |]. split; [absurd_status |].
        split; [absurd_status | exact Hown].
    + destruct res as [tid | msg].
      * cbn in Es, Et, Est, Eel.
        unfold invariant. rewrite Es, Et, Est.
        split; [exact I1 |]. split; [| split; [| split; [| exact Hown]]].
        -- intro Hidle. destruct (I2 Hidle) as (A & B & C). repeat split; try assumption.
           rewrite Eel by (rewrite Hidle; discriminate). exact C.
        -- intro H. destruct (I3 H) as (id & st & Hin). exists id, st.
           apply Hkeep; [discriminate | exact Hin].
        -- intro H. destruct (I4 H) as (Htruthy & id & Hin). split; [exact Htruthy |].
           exists id. apply Hkeep; [discriminate | exact Hin].
      * unfold invariant. rewrite Es. cbn.
        split; [absurd_status |]. split; [absurd_status |]. split; [absurd_status |].
        split; [absurd_status | exact Hown].
    + destruct (stopSessionResume_hooks res
                  (mkWorld (hooks w) (intervalRef w) (timeIntervalRef w) (intervals w)
                     (nextIntervalId w) (dropKey j (pending w)) (nextCallId w)
                     (nextObjectId w) (network w) (console w))) as (Hs & Hk & Hst & Hel).
      unfold invariant. rewrite Es, Et, Est, Hs, Hk, Hst.
      rewrite Eel by (rewrite Hs; discriminate). rewrite Hel.
      split; [absurd_status |]. split; [intros _; repeat split |].
      split; [absurd_status |]. split; [absurd_status | exact Hown].
Qed.

Lemma invariant_initial : invariant initialWorld.
Proof.
  unfold invariant. cbn.
  split; [absurd_status |]. split; [intros _; repeat split |].
  split; [absurd_status |]. split; [absurd_status |].
  intros id st [].
Qed.

Lemma invariant_run (es : list event) : forall w, invariant w -> invariant (run w es).
Proof.
  unfold run. induction es as [| e es IH]; intros w Hw; [exact Hw |].
  cbn [fold_left]. apply IH. apply invariant_step. exact Hw.
Qed.

(** X15. After any sequence of events from the initial state: an idle
    machine has no identifier, no start time and zero elapsed seconds; a
    running machine has a start time; a stopping machine still holds the
    non-empty identifier of the session it ends. *)
Theorem reachable_session_fields (es : list event) :
  match status (hooks (run initialWorld es)) with
  | Idle =>
      transactionId (hooks (run initialWorld es)) = None /\
      startTime (hooks (run initialWorld es)) = None /\
      elapsedSeconds (hooks (run initialWorld es)) = 0%Z
  | Running => startTime (hooks (run initialWorld es)) <> None
  | Stopping => truthyId (transactionId (hooks (run initialWorld es))) = true
  | Starting | Error => True
  end.
Proof.
  destruct (invariant_run es initialWorld invariant_initial) as (I1 & I2 & _ & I4 & _).
  destruct (status (hooks (run initialWorld es))).
  - exact (I2 eq_refl).
  - exact I.
  - exact (I1 eq_refl).
  - exact (proj1 (I4 eq_refl)).
  - exact I.
Qed.

(** X16. After any sequence of events from the initial state the machine
    never waits for nothing: while the status is starting a start call is
    in flight, and while it is stopping an end call is in flight, so the
    settling of that call will move the machine on. *)
Theorem transitional_status_has_call (es : list event) :
  match status (hooks (run initialWorld es)) with
  | Starting =>
      exists id st, inFlight id (AfterStartCharge st) (run initialWorld es)
  | Stopping =>
      exists id, inFlight id AfterEndCharge (run initialWorld es)
  | Idle | Running | Error => True
  end.
Proof.
  destruct (invariant_run es initialWorld invariant_initial) as (_ & _ & I3 & I4 & _).
  destruct (status (hooks (run initialWorld es))).
  - exact I.
  - exact (I3 eq_refl).
  - exact I.
  - exact (proj2 (I4 eq_refl)).
  - exact I.
Qed.

(** X17. After any sequence of events from the initial state an
    elapsed-time interval is registered only while the session is running,
    and it is the one whose handle [timeIntervalRef] holds: the render's
    cleanup and [stopSession] between them never leave one behind. *)
Theorem elapsed_interval_never_leaks (es : list event) (id : nat) (st : Date) :
  In (id, CallUpdateElapsed st) (intervals (run initialWorld es)) ->
  status (hooks (run initialWorld es)) = Running /\
  timeIntervalRef (run initialWorld es) = Some id.
Proof.
  destruct (invariant_run es initialWorld invariant_initial) as (_ & _ & _ & _ & I5).
  exact (I5 id st).
Qed.

Lemma elapsed_interval_never_leaks_witness :
  In (1%nat, CallUpdateElapsed {| getTime := 1000; objectId := 0 |})
     (intervals (run initialWorld
                     [ClickStart 1000; CallSettles 0 (Api.Resolved "tx1") 1500 halfDraw])) /\
  status (hooks (run initialWorld
                     [ClickStart 1000; CallSettles 0 (Api.Resolved "tx1") 1500 halfDraw]))
  = Running /\
  timeIntervalRef (run initialWorld
                       [ClickStart 1000; CallSettles 0 (Api.Resolved "tx1") 1500 halfDraw])
  = Some 1%nat.
Proof.
  assert (Hin : In (1%nat, CallUpdateElapsed {| getTime := 1000; objectId := 0 |})
                   (intervals (run initialWorld
                                   [ClickStart 1000;
                                    CallSettles 0 (Api.Resolved "tx1") 1500 halfDraw])))
    by (vm_compute; left; reflexivity).
  split; [exact Hin |].
  exact (elapsed_interval_never_leaks
           [ClickStart 1000; CallSettles 0 (Api.Resolved "tx1") 1500 halfDraw]
           1 {| getTime := 1000; objectId := 0 |} Hin).
Defined.

(** ** Display helpers *)

Lemma string_length_append (a b : string) :
  String.length (a ++ b) = (String.length a + String.length b)%nat.
Proof. induction a as [| c a IH]; cbn; [reflexivity | rewrite IH; reflexivity]. Qed.

(** Two concatenations that agree and whose second parts have the same
    length agree part by part. *)
Lemma append_inj_suffix (s1 : string) :
  forall t1 s2 t2 : string,
    String.length s2 = String.length t2 ->
    (s1 ++ s2 = t1 ++ t2)%string -> s1 = t1 /\ s2 = t2.
Proof.
  induction s1 as [| c s1 IH]; intros [| c' t1] s2 t2 Hlen Heq; cbn in Heq.
  - split; [reflexivity | exact Heq].
  - exfalso. subst s2. cbn in Hlen. rewrite string_length_append in Hlen. lia.
  - exfalso. subst t2. cbn in Hlen. rewrite string_length_append in Hlen. lia.
  - injection Heq as -> Heq. destruct (IH t1 s2 t2 Hlen Heq) as [-> ->].
    split; reflexivity.
Qed.

Lemma to_uint_nonnil (n : nat) : Nat.to_uint n <> Decimal.Nil.
Proof.
  rewrite <- (DecimalNat.Unsigned.of_to n) at 1.
  rewrite DecimalNat.Unsigned.to_of. apply DecimalFacts.unorm_nonnil.
Qed.

Lemma readDecimal_decimal (n : nat) : readDecimal (decimal n) = Some n.
Proof.
  unfold readDecimal, decimal.
  rewrite DecimalString.NilZero.usu by apply to_uint_nonnil.
  cbn. rewrite DecimalNat.Unsigned.of_to. reflexivity.
Qed.

Lemma decimal_inj (a b : nat) : decimal a = decimal b -> a = b.
Proof.
  intro H. apply (f_equal readDecimal) in H.
  rewrite !readDecimal_decimal in H. injection H as ->. reflexivity.
Qed.

Lemma numberToString_nonneg (z : Z) :
  (0 <= z)%Z -> numberToString z = decimal (Z.to_nat z).
Proof.
  intro H. unfold numberToString.
  destruct (z <? 0)%Z eqn:E; [apply Z.ltb_lt in E; lia | reflexivity].
Qed.

(** Below 60 the padded field has exactly two characters and reads back as
    the number. *)
Lemma pad2_below_60 (n : nat) :
  (n < 60)%nat ->
  String.length (padStart 2 "0" (decimal n)) = 2%nat /\
  readDecimal (padStart 2 "0" (decimal n)) = Some n.
Proof.
  intro H.
  do 60 (destruct n as [| n]; [split; vm_compute; reflexivity |]).
  lia.
Qed.

Lemma pad2_inj (a b : Z) :
  (0 <= a < 60)%Z -> (0 <= b < 60)%Z ->
  padStart 2 "0" (numberToString a) = padStart 2 "0" (numberToString b) -> a = b.
Proof.
  intros Ha Hb H.
  rewrite !numberToString_nonneg in H by lia.
  apply (f_equal readDecimal) in H.
  destruct (pad2_below_60 (Z.to_nat a) ltac:(lia)) as [_ Ea].
  destruct (pad2_below_60 (Z.to_nat b) ltac:(lia)) as [_ Eb].
  rewrite Ea, Eb in H. injection H as H. lia.
Qed.

Lemma numberToString_inj_nonneg (a b : Z) :
  (0 <= a)%Z -> (0 <= b)%Z -> numberToString a = numberToString b -> a = b.
Proof.
  intros Ha Hb H. rewrite !numberToString_nonneg in H by assumption.
  apply decimal_inj in H. lia.
Qed.

(** X18. For non-negative whole seconds [formatTime] prints the minutes,
    a colon and exactly two characters of seconds, and two different
    durations are never printed alike. *)
Theorem formatTime_unambiguous (a b : Z) :
  (0 <= a)%Z -> (0 <= b)%Z ->
  String.length (formatTime a)
  = (String.length (numberToString (a / 60)) + 3)%nat /\
  (formatTime a = formatTime b -> a = b).
Proof.
  intros Ha Hb.
  assert (Ra : (0 <= Z.rem a 60 < 60)%Z)
    by (rewrite Z.rem_mod_nonneg by lia; apply Z.mod_pos_bound; lia).
  assert (Rb : (0 <= Z.rem b 60 < 60)%Z)
    by (rewrite Z.rem_mod_nonneg by lia; apply Z.mod_pos_bound; lia).
  assert (La : String.length (padStart 2 "0" (numberToString (Z.rem a 60))) = 2%nat).
  { rewrite numberToString_nonneg by lia. apply pad2_below_60. lia. }
  assert (Lb : String.length (padStart 2 "0" (numberToString (Z.rem b 60))) = 2%nat).
  { rewrite numberToString_nonneg by lia. apply pad2_below_60. lia. }
  unfold formatTime. cbv zeta. split.
  - rewrite string_length_append. cbn [append String.length]. rewrite La. lia.
  - intro H. apply append_inj_suffix in H; [| cbn [append String.length]; lia].
    destruct H as [Hm Hs]. cbn [append] in Hs. injection Hs as Hs.
    apply numberToString_inj_nonneg in Hm; [| apply Z.div_pos; lia | apply Z.div_pos; lia].
    apply pad2_inj in Hs; [| exact Ra | exact Rb].
    rewrite !Z.rem_mod_nonneg in Hs by lia.
    rewrite (Z.div_mod a 60), (Z.div_mod b 60) by lia. rewrite Hm, Hs. reflexivity.
Qed.

Lemma formatTime_unambiguous_witness :
  ((0 <= 65)%Z /\ (0 <= 3725)%Z) /\
  String.length (formatTime 65) = (String.length (numberToString (65 / 60)) + 3)%nat /\
  (formatTime 65 = formatTime 3725 -> 65%Z = 3725%Z).
Proof.
  split; [split; lia |].
  exact (formatTime_unambiguous 65 3725 ltac:(lia) ltac:(lia)).
Defined.

(** X19. For a clock reading (hours 0-23, minutes 0-59) the hour that
    [formatTime12Hour] prints lies between 1 and 12, and together with the
    AM/PM mark the text determines the reading: two different times of day
    are never printed alike. *)
Theorem formatTime12Hour_unambiguous (h1 m1 h2 m2 : Z) :
  (0 <= h1 < 24)%Z -> (0 <= m1 < 60)%Z ->
  (0 <= h2 < 24)%Z -> (0 <= m2 < 60)%Z ->
  (exists hour : Z,
      (1 <= hour <= 12)%Z /\
      formatTime12Hour h1 m1
      = (numberToString hour ++ ":" ++ padStart 2 "0" (numberToString m1) ++ " "
         ++ (if (12 <=? h1)%Z then "PM" else "AM"))%string) /\
  (formatTime12Hour h1 m1 = formatTime12Hour h2 m2 -> h1 = h2 /\ m1 = m2).
Proof.
  intros H1 M1 H2 M2.
  assert (L1 : String.length (padStart 2 "0" (numberToString m1)) = 2%nat).
  { rewrite numberToString_nonneg by lia. apply pad2_below_60. lia. }
  assert (L2 : String.length (padStart 2 "0" (numberToString m2)) = 2%nat).
  { rewrite numberToString_nonneg by lia. apply pad2_below_60. lia. }
  unfold formatTime12Hour. cbv zeta.
  rewrite (Z.rem_mod_nonneg h1 12), (Z.rem_mod_nonneg h2 12) by lia.
  set (hh1 := if (h1 mod 12 =? 0)%Z then 12%Z else (h1 mod 12)%Z).
  set (hh2 := if (h2 mod 12 =? 0)%Z then 12%Z else (h2 mod 12)%Z).
  pose proof (Z.mod_pos_bound h1 12 ltac:(lia)) as Q1.
  pose proof (Z.mod_pos_bound h2 12 ltac:(lia)) as Q2.
  pose proof (Z.div_mod h1 12 ltac:(lia)) as D1.
  pose proof (Z.div_mod h2 12 ltac:(lia)) as D2.
  assert (B1 : (1 <= hh1 <= 12)%Z).
  { subst hh1. destruct (Z.eqb_spec (h1 mod 12) 0); lia. }
  assert (B2 : (1 <= hh2 <= 12)%Z).
  { subst hh2. destruct (Z.eqb_spec (h2 mod 12) 0); lia. }
  split; [exists hh1; split; [exact B1 | reflexivity] |].
  intro H.
  apply append_inj_suffix in H.
  2: { cbn [append String.length]. rewrite !string_length_append, L1, L2.
       destruct (12 <=? h1)%Z, (12 <=? h2)%Z; reflexivity. }
  destruct H as [Hh Hrest]. cbn [append] in Hrest. injection Hrest as Hrest.
  apply append_inj_suffix in Hrest.
  2: { destruct (12 <=? h1)%Z, (12 <=? h2)%Z; reflexivity. }
  destruct Hrest as [Hm Hap].
  apply numberToString_inj_nonneg in Hh; [| lia | lia].
  apply pad2_inj in Hm; [| exact M1 | exact M2].
  split; [| exact Hm].
  subst hh1 hh2.
  destruct (Z.leb_spec 12 h1) as [P1 | P1]; destruct (Z.leb_spec 12 h2) as [P2 | P2];
    cbn in Hap; try discriminate Hap;
    destruct (Z.eqb_spec (h1 mod 12) 0) as [E1 | E1];
    destruct (Z.eqb_spec (h2 mod 12) 0) as [E2 | E2]; lia.
Qed.

Lemma formatTime12Hour_unambiguous_witness :
  ((0 <= 13 < 24)%Z /\ (0 <= 45 < 60)%Z /\ (0 <= 1 < 24)%Z /\ (0 <= 45 < 60)%Z) /\
  (formatTime12Hour 13 45 = formatTime12Hour 1 45 -> 13%Z = 1%Z /\ 45%Z = 45%Z).
Proof.
  split; [repeat split; lia |].
  exact (proj2 (formatTime12Hour_unambiguous 13 45 1 45
                  ltac:(lia) ltac:(lia) ltac:(lia) ltac:(lia))).
Defined.

(** X20. The gauge clamps any percentage into [0, 100]: the dash offset
    stays between 0 (full circle, from 100 up) and the circumference (empty
    circle, from 0 down), never grows when the percentage grows, and the
    number shown is a whole number between 0 and 100. *)
Theorem gauge_stays_in_range (PI p q : Q) :
  0 <= PI ->
  (0 <= gaugeOffset PI p /\ gaugeOffset PI p <= gaugeCircumference PI) /\
  (p <= q -> gaugeOffset PI q <= gaugeOffset PI p) /\
  (p <= 0 -> gaugeOffset PI p == gaugeCircumference PI) /\
  (100 <= p -> gaugeOffset PI p == 0) /\
  (0 <= gaugeValue p <= 100)%Z.
Proof.
  intro Hpi.
  assert (Hc : 0 <= gaugeCircumference PI)
    by (unfold gaugeCircumference, gaugeRadius; lra).
  assert (Hn : forall x, 0 <= normalizedPercentage x /\ normalizedPercentage x <= 100).
  { intro x. unfold normalizedPercentage.
    destruct (Q.max_spec 0 x) as [[? E1] | [? E1]];
      destruct (Q.min_spec 100 (Qmax 0 x)) as [[? E2] | [? E2]];
      rewrite E2; rewrite ?E1; rewrite E1 in *; split; lra. }
  assert (Hmono : p <= q -> normalizedPercentage p <= normalizedPercentage q).
  { intro Hpq. unfold normalizedPercentage.
    apply Q.min_le_compat_l. apply Q.max_le_compat_l. exact Hpq. }
  unfold gaugeOffset. set (c := gaugeCircumference PI) in *.
  split; [| split; [| split; [| split]]].
  - destruct (Hn p) as [H0 H1]. set (n := normalizedPercentage p) in *.
    rewrite Qdiv_100. split; nra.
  - intro Hpq. specialize (Hmono Hpq).
    set (n1 := normalizedPercentage p) in *. set (n2 := normalizedPercentage q) in *.
    rewrite !Qdiv_100. nra.
  - intro Hp. assert (E : normalizedPercentage p == 0).
    { unfold normalizedPercentage.
      destruct (Q.max_spec 0 p) as [[? E1] | [? E1]];
        destruct (Q.min_spec 100 (Qmax 0 p)) as [[? E2] | [? E2]];
        rewrite E2; rewrite ?E1; rewrite E1 in *; lra. }
    rewrite E. rewrite Qdiv_100. ring.
  - intro Hp. assert (E : normalizedPercentage p == 100).
    { unfold normalizedPercentage.
      destruct (Q.max_spec 0 p) as [[? E1] | [? E1]];
        destruct (Q.min_spec 100 (Qmax 0 p)) as [[? E2] | [? E2]];
        rewrite E2; rewrite ?E1; rewrite E1 in *; lra. }
    rewrite E. rewrite Qdiv_100. ring.
  - unfold gaugeValue. destruct (Hn p) as [H0 H1].
    set (n := normalizedPercentage p) in *. split.
    + rewrite <- (Qfloor_Z 0). apply Qfloor_resp_le. change (inject_Z 0) with 0. lra.
    + rewrite <- (Qfloor_Z 100). 
      assert (Hlt : (Qfloor (n + (1 # 2)) < 101)%Z).
      { rewrite Zlt_Qlt. pose proof (Qfloor_le (n + (1 # 2))).
        change (inject_Z 101) with 101. lra. }
      rewrite Qfloor_Z. lia.
Qed.

Lemma gauge_stays_in_range_witness :
  0 <= 3 /\
  (0 <= gaugeOffset 3 50 /\ gaugeOffset 3 50 <= gaugeCircumference 3) /\
  (0 <= gaugeValue 50 <= 100)%Z.
Proof.
  assert (H : 0 <= 3) by lra.
  split; [exact H |].
  destruct (gauge_stays_in_range 3 50 90 H) as (Hb & _ & _ & _ & Hv).
  split; assumption.
Defined.

(** ** How the API calls settle *)

Lemma failure_rejects (prefix : string) (status : nat) (text : Fetch.bodyRead) :
  exists m, Fetch.failure prefix status text = Api.Rejected m.
Proof. destruct text; eexists; reflexivity. Qed.

(** X21. A response that is not ok never resolves, whatever its body; an
    ok response always resolves for an update and for the end of a session;
    for a response that is not ok and whose body can be read the message
    names the call, the status and the body, so that the three calls are
    told apart; and a call is rejected without a message only when [fetch]
    or the reading of a body was, the client passing that rejection on. *)
Theorem api_failure_messages
    (f : Fetch.fetchResult) (code code' : nat) (text text' : string)
    (body json : Fetch.bodyRead) :
  ((exists m, Fetch.startCharge (Fetch.Response false code body json) = Api.Rejected m) /\
   (exists m, Fetch.sendChargeUpdate (Fetch.Response false code body json) = Api.Rejected m) /\
   (exists m, Fetch.endCharge (Fetch.Response false code body json) = Api.Rejected m)) /\
  (Fetch.sendChargeUpdate (Fetch.Response true code body json) = Api.Resolved EmptyString /\
   Fetch.endCharge (Fetch.Response true code body json) = Api.Resolved EmptyString) /\
  (Fetch.startCharge (Fetch.Response false code (Fetch.BodyRead text) json)
   = Api.Rejected (Some ("Failed to start charge: " ++ decimal code ++ " " ++ text)%string) /\
   Fetch.startCharge (Fetch.Response false code (Fetch.BodyRead text) json)
   <> Fetch.sendChargeUpdate (Fetch.Response false code' (Fetch.BodyRead text') json) /\
   Fetch.startCharge (Fetch.Response false code (Fetch.BodyRead text) json)
   <> Fetch.endCharge (Fetch.Response false code' (Fetch.BodyRead text') json) /\
   Fetch.sendChargeUpdate (Fetch.Response false code (Fetch.BodyRead text) json)
   <> Fetch.endCharge (Fetch.Response false code' (Fetch.BodyRead text') json)) /\
  ((Fetch.startCharge f = Api.Rejected None -> Fetch.passedOn f None) /\
   (Fetch.sendChargeUpdate f = Api.Rejected None ->
    f = Fetch.FetchRejected None \/
    exists c j, f = Fetch.Response false c (Fetch.BodyFailed None) j) /\
   (Fetch.endCharge f = Api.Rejected None ->
    f = Fetch.FetchRejected None \/
    exists c j, f = Fetch.Response false c (Fetch.BodyFailed None) j)).
Proof.
  split; [| split; [| split]].
  - repeat split; cbn; apply failure_rejects.
  - split; reflexivity.
  - split; [reflexivity |].
    repeat split; cbn; intro H; injection H as H; discriminate H.
  - split; [| split].
    + destruct f as [m | [|] c [t | m] [j | m']]; cbn; intro H;
        try discriminate H; injection H as ->; reflexivity.
    + destruct f as [m | [|] c [t | m] j]; cbn; intro H; try discriminate H;
        injection H as ->; [left | right; exists c, j]; reflexivity.
    + destruct f as [m | [|] c [t | m] j]; cbn; intro H; try discriminate H;
        injection H as ->; [left | right; exists c, j]; reflexivity.
Qed.

(** X22. When the start call fails in the API client the machine goes to
    error and shows the message of the rejection; the fallback text is
    shown exactly when the rejection has no message, which happens only
    when [fetch] or the reading of a body rejected without one; for a
    response that is not ok and whose body can be read, the error is the
    line that names the status and the body. *)
Theorem failed_start_shows_api_message
    (w : World) (id : nat) (st : Date) (f : Fetch.fetchResult) (message : option string)
    (code : nat) (text : string) (json : Fetch.bodyRead) (now : Z) (d : draws) :
  findKey id (pending w) = Some (AfterStartCharge st) ->
  Fetch.startCharge f = Api.Rejected message ->
  (status (hooks (step w (CallSettles id (Fetch.startCharge f) now d))) = Error /\
   error (hooks (step w (CallSettles id (Fetch.startCharge f) now d)))
   = Some match message with
          | Some m => m
          | None => "Failed to start session"%string
          end /\
   (message = None -> Fetch.passedOn f None)) /\
  error (hooks (step w (CallSettles id
     (Fetch.startCharge (Fetch.Response false code (Fetch.BodyRead text) json)) now d)))
  = Some ("Failed to start charge: " ++ decimal code ++ " " ++ text)%string.
Proof.
  intros Hf Hrej. split.
  - rewrite Hrej.
    destruct (start_rejected_step w id st message now d Hf) as (Hh & _).
    rewrite Hh. cbn [status error].
    split; [reflexivity |]. split; [reflexivity |].
    intro E. subst message.
    destruct f as [m | [|] c [t | m] [j | m']]; cbn in Hrej |- *;
      try discriminate Hrej; injection Hrej as ->; reflexivity.
  - cbn [Fetch.startCharge negb Fetch.failure].
    destruct (start_rejected_step w id st
                (Some ("Failed to start charge: " ++ decimal code ++ " " ++ text)%string)
                now d Hf) as (Hh & _).
    rewrite Hh. reflexivity.
Qed.

Lemma failed_start_shows_api_message_witness :
  (findKey 0 (pending (step initialWorld (ClickStart 1000)))
   = Some (AfterStartCharge {| getTime := 1000; objectId := 0 |}) /\
   Fetch.startCharge (Fetch.FetchRejected None) = Api.Rejected None) /\
  error (hooks (step (step initialWorld (ClickStart 1000))
                     (CallSettles 0 (Fetch.startCharge (Fetch.FetchRejected None))
                                  1100 noDraw)))
  = Some "Failed to start session"%string /\
  error (hooks (step (step initialWorld (ClickStart 1000))
                     (CallSettles 0
                        (Fetch.startCharge
                           (Fetch.Response false 503 (Fetch.BodyRead "down")
                                           (Fetch.BodyFailed None)))
                        1100 noDraw)))
  = Some ("Failed to start charge: " ++ decimal 503 ++ " " ++ "down")%string.
Proof.
  split; [split; reflexivity |].
  destruct (failed_start_shows_api_message (step initialWorld (ClickStart 1000)) 0
              {| getTime := 1000; objectId := 0 |}
              (Fetch.FetchRejected None) None
              503 "down" (Fetch.BodyFailed None) 1100 noDraw eq_refl eq_refl)
    as ((_ & Herr & _) & Hline).
  split; [exact Herr | exact Hline].
Defined.

(** ** Unmounting *)

Lemma clearInterval_In (id : nat) (x : nat * intervalCallback) (w : World) :
  In x (intervals (clearInterval id w)) <-> In x (intervals w) /\ fst x <> id.
Proof. cbn. apply In_dropKey. Qed.

Lemma unmount_intervals_subset (w : World) (x : nat * intervalCallback) :
  In x (intervals (unmount w)) ->
  In x (intervals w) /\
  (forall id, timeIntervalRef w = Some id -> fst x <> id) /\
  (forall id, intervalRef w = Some id -> fst x <> id).
Proof.
  unfold unmount.
  set (w1 := match status (hooks w), startTime (hooks w) with
             | Running, Some _ =>
                 match timeIntervalRef w with
                 | Some id => clearInterval id w
                 | None => w
                 end
             | _, _ => w
             end).
  assert (H1 : (forall y, In y (intervals w1) -> In y (intervals w)) /\
               intervalRef w1 = intervalRef w /\ timeIntervalRef w1 = timeIntervalRef w).
  { subst w1.
    destruct (status (hooks w)), (startTime (hooks w)), (timeIntervalRef w) eqn:Er;
      (split; [intros y Hy; try exact Hy; apply clearInterval_In in Hy; tauto
              | split; cbn; rewrite ?Er; reflexivity]). }
  destruct H1 as (Hsub1 & Ei & Et).
  set (w2 := match intervalRef w1 with
             | Some id => clearInterval id w1
             | None => w1
             end).
  assert (H2 : (forall y, In y (intervals w2) ->
                          In y (intervals w1) /\
                          forall id, intervalRef w = Some id -> fst y <> id) /\
               timeIntervalRef w2 = timeIntervalRef w).
  { subst w2. rewrite Ei. destruct (intervalRef w) as [i |].
    - split; [| exact Et]. intros y Hy. apply clearInterval_In in Hy.
      destruct Hy as [Hy Hne]. split; [exact Hy |].
      intros id E. injection E as <-. exact Hne.
    - split; [| exact Et]. intros y Hy. split; [exact Hy |]. intros id E. discriminate E. }
  destruct H2 as (Hsub2 & Et2). rewrite Et2.
  intro Hin.
  destruct (timeIntervalRef w) as [t |].
  - apply clearInterval_In in Hin. destruct Hin as [Hin Hne].
    destruct (Hsub2 x Hin) as [Hin1 Hi]. split; [exact (Hsub1 x Hin1) |].
    split; [| exact Hi]. intros id E. injection E as <-. exact Hne.
  - destruct (Hsub2 x Hin) as [Hin1 Hi]. split; [exact (Hsub1 x Hin1) |].
    split; [| exact Hi]. intros id E. discriminate E.
Qed.

(** X23. Unmounting the component removes the intervals whose handles the
    two refs hold, and after any sequence of events from the initial state
    it leaves no elapsed-time interval registered. *)
Theorem unmount_clears_owned_intervals
    (es : list event) (id : nat) (cb : intervalCallback) (st : Date) :
  (In (id, cb) (intervals (unmount (run initialWorld es))) ->
   intervalRef (run initialWorld es) <> Some id /\
   timeIntervalRef (run initialWorld es) <> Some id) /\
  ~ In (id, CallUpdateElapsed st) (intervals (unmount (run initialWorld es))).
Proof.
  split.
  - intro Hin. destruct (unmount_intervals_subset _ _ Hin) as (_ & Ht & Hi).
    split; intro E; [exact (Hi id E eq_refl) | exact (Ht id E eq_refl)].
  - intro Hin. destruct (unmount_intervals_subset _ _ Hin) as (Hin0 & Ht & _).
    destruct (invariant_run es initialWorld invariant_initial) as (_ & _ & _ & _ & I5).
    destruct (I5 id st Hin0) as [_ Hr]. exact (Ht id Hr eq_refl).
Qed.

(** ** URLs *)

Lemma string_append_assoc (a b c : string) : ((a ++ b) ++ c = a ++ (b ++ c))%string.
Proof. induction a as [| x a IH]; cbn; [reflexivity | rewrite IH; reflexivity]. Qed.

Lemma string_append_cancel_l (a b c : string) : (a ++ b = a ++ c)%string -> b = c.
Proof.
  induction a as [| x a IH]; cbn; intro H; [exact H |].
  injection H as H. exact (IH H).
Qed.

(** Two strings with different last three characters are different. *)
Lemma different_endings (a b x y : string) :
  String.length x = String.length y -> x <> y -> (a ++ x)%string <> (b ++ y)%string.
Proof.
  intros Hlen Hne Heq. destruct (append_inj_suffix a b x y Hlen Heq) as [_ E].
  exact (Hne E).
Qed.

(** X24. The base URL is never empty, and under one base URL the requests
    are told apart by their URLs: a start, an update and an end request
    never share a URL, and two updates (or two end requests) share one only
    for the same identifier, whatever characters the identifiers contain. *)
Theorem urls_tell_requests_apart
    (viteApiBaseUrl : option string) (dev : bool) (base : string) (e1 e2 : Api.endpoint) :
  truthy (apiBaseUrl viteApiBaseUrl dev) = true /\
  (urlOf base e1 = urlOf base e2 -> e1 = e2).
Proof.
  split.
  - unfold apiBaseUrl.
    destruct viteApiBaseUrl as [u |]; cbn [truthyId];
      [destruct (truthy u) eqn:E; [exact E |] |]; destruct dev; reflexivity.
  - destruct e1 as [| t1 | t1], e2 as [| t2 | t2]; cbn [urlOf]; intro H;
      apply string_append_cancel_l in H.
    + reflexivity.
    + exfalso. revert H.
      change ("/start_charge"%string) with ("/start_cha" ++ "rge")%string.
      change ("/" ++ t2 ++ "/charge_update")%string with ("/" ++ (t2 ++ "/charge_upd" ++ "ate"))%string.
      rewrite <- !string_append_assoc.
      apply different_endings; [reflexivity | discriminate].
    + exfalso. revert H.
      change ("/start_charge"%string) with ("/start_cha" ++ "rge")%string.
      change ("/" ++ t2 ++ "/charge_end")%string with ("/" ++ (t2 ++ "/charge_" ++ "end"))%string.
      rewrite <- !string_append_assoc.
      apply different_endings; [reflexivity | discriminate].
    + exfalso. revert H.
      change ("/start_charge"%string) with ("/start_cha" ++ "rge")%string.
      change ("/" ++ t1 ++ "/charge_update")%string with ("/" ++ (t1 ++ "/charge_upd" ++ "ate"))%string.
      rewrite <- !string_append_assoc.
      apply different_endings; [reflexivity | discriminate].
    + cbn [append] in H. injection H as H.
      apply append_inj_suffix in H; [| reflexivity].
      destruct H as [-> _]. reflexivity.
    + exfalso. revert H.
      change ("/" ++ t1 ++ "/charge_update")%string with ("/" ++ (t1 ++ "/charge_upd" ++ "ate"))%string.
      change ("/" ++ t2 ++ "/charge_end")%string with ("/" ++ (t2 ++ "/charge_" ++ "end"))%string.
      rewrite <- !string_append_assoc.
      apply different_endings; [reflexivity | discriminate].
    + exfalso. revert H.
      change ("/start_charge"%string) with ("/start_cha" ++ "rge")%string.
      change ("/" ++ t1 ++ "/charge_end")%string with ("/" ++ (t1 ++ "/charge_" ++ "end"))%string.
      rewrite <- !string_append_assoc.
      apply different_endings; [reflexivity | discriminate].
    + exfalso. revert H.
      change ("/" ++ t1 ++ "/charge_end")%string with ("/" ++ (t1 ++ "/charge_" ++ "end"))%string.
      change ("/" ++ t2 ++ "/charge_update")%string with ("/" ++ (t2 ++ "/charge_upd" ++ "ate"))%string.
      rewrite <- !string_append_assoc.
      apply different_endings; [reflexivity | discriminate].
    + cbn [append] in H. injection H as H.
      apply append_inj_suffix in H; [| reflexivity].
      destruct H as [-> _]. reflexivity.
Qed.
